(** * torchmm/base.py: the emission models of TorCHmm

    A shallow embedding of [CategoricalModel] and [DiagNormalModel] together
    with the part of the tensor library they call.

    Conventions of the embedding.

    - A tensor element is an IEEE-754 value whose special cases (NaN, the two
      infinities, division by zero, logarithm of zero or of a negative number)
      are modelled exactly and whose finite arithmetic is carried out in the
      reals: rounding is not modelled, and there is a single zero.
    - A tensor is one-dimensional unless stated otherwise, and its shape is
      its length.
    - Python exceptions are values of [exn]; a method that mutates [self]
      returns its result together with the model it leaves behind, so that a
      failure after a field was assigned is visible.
    - The random number generator and the multivariate normal distribution of
      the tensor library are taken as an interface ([Torch]).
    - Tensors are values: the identity of a tensor object shared between a
      model and its caller is not tracked.  Only
      [DiagNormalModel.init_params_random] writes a tensor in place; it is
      modelled by the new content of the two fields, written one after the
      other, each write being one the library may refuse. *)

From Stdlib Require Import String.
From Stdlib Require Import Reals Lra Lia ZArith Bool List.
From Stdlib Require Import Permutation.
Import ListNotations.

Open Scope R_scope.

(** ** Tensor elements *)

Inductive float : Type :=
| NaN
| NInf
| PInf
| Fin (r : R).

Definition is_nan (x : float) : Prop :=
  match x with NaN => True | _ => False end.

Definition is_finite (x : float) : Prop :=
  match x with Fin _ => True | _ => False end.

(** [x < 0] in the IEEE order: false for NaN. *)
Definition is_negative (x : float) : Prop :=
  match x with
  | NInf => True
  | Fin r => r < 0
  | _ => False
  end.

(** A finite, strictly positive value. *)
Definition is_pos_finite (x : float) : Prop :=
  match x with Fin r => 0 < r | _ => False end.

(** A finite value other than zero. *)
Definition is_nonzero_finite (x : float) : Prop :=
  match x with Fin r => r <> 0 | _ => False end.

Definition fneg (x : float) : float :=
  match x with
  | NaN => NaN
  | NInf => PInf
  | PInf => NInf
  | Fin r => Fin (- r)
  end.

Definition fadd (x y : float) : float :=
  match x, y with
  | NaN, _ | _, NaN => NaN
  | PInf, NInf | NInf, PInf => NaN
  | PInf, _ | _, PInf => PInf
  | NInf, _ | _, NInf => NInf
  | Fin a, Fin b => Fin (a + b)
  end.

Definition fsub (x y : float) : float := fadd x (fneg y).

(** The infinity whose sign is the sign of [r]; NaN when [r] is zero. *)
Definition inf_of_sign (r : R) : float :=
  match total_order_T r 0 with
  | inleft (left _) => NInf
  | inleft (right _) => NaN
  | inright _ => PInf
  end.

Definition fmul (x y : float) : float :=
  match x, y with
  | NaN, _ | _, NaN => NaN
  | Fin a, Fin b => Fin (a * b)
  | PInf, Fin r | Fin r, PInf => inf_of_sign r
  | NInf, Fin r | Fin r, NInf => inf_of_sign (- r)
  | PInf, PInf | NInf, NInf => PInf
  | PInf, NInf | NInf, PInf => NInf
  end.

Definition fdiv (x y : float) : float :=
  match x, y with
  | NaN, _ | _, NaN => NaN
  | Fin a, Fin b =>
      if Req_dec_T b 0 then inf_of_sign a else Fin (a / b)
  | Fin _, (PInf | NInf) => Fin 0
  | PInf, Fin b => if Rlt_dec b 0 then NInf else PInf
  | NInf, Fin b => if Rlt_dec b 0 then PInf else NInf
  | (PInf | NInf), (PInf | NInf) => NaN
  end.

Definition flog (x : float) : float :=
  match x with
  | NaN | NInf => NaN
  | PInf => PInf
  | Fin r =>
      match total_order_T r 0 with
      | inleft (left _) => NaN
      | inleft (right _) => NInf
      | inright _ => Fin (ln r)
      end
  end.

Definition fexp (x : float) : float :=
  match x with
  | NaN => NaN
  | NInf => Fin 0
  | PInf => PInf
  | Fin r => Fin (exp r)
  end.

Definition fabs (x : float) : float :=
  match x with
  | NaN => NaN
  | NInf | PInf => PInf
  | Fin r => Fin (Rabs r)
  end.

Definition fsqrt (x : float) : float :=
  match x with
  | NaN | NInf => NaN
  | PInf => PInf
  | Fin r => if Rlt_dec r 0 then NaN else Fin (sqrt r)
  end.

(** ** Tensors and the tensor operations the models call *)

Definition tensor := list float.
Definition matrix := list tensor.

(** [Tensor.sum()]. *)
Definition tsum (t : tensor) : float := fold_right fadd (Fin 0) t.

(** [Tensor.log()], [Tensor.exp()], [Tensor.abs()], [Tensor.pow(2)]. *)
Definition tlog (t : tensor) : tensor := map flog t.
Definition texp (t : tensor) : tensor := map fexp t.
Definition tabs (t : tensor) : tensor := map fabs t.
Definition tpow2 (t : tensor) : tensor := map (fun x => fmul x x) t.

(** [t / s] and [c * t] with a scalar. *)
Definition tdiv_scalar (t : tensor) (s : float) : tensor :=
  map (fun x => fdiv x s) t.
Definition tmul_scalar (c : float) (t : tensor) : tensor :=
  map (fun x => fmul c x) t.

(** [Tensor.softmax(0)] of a one-dimensional tensor. *)
Definition softmax (t : tensor) : tensor :=
  tdiv_scalar (texp t) (tsum (texp t)).

(** [Tensor.logsumexp(-1)]. *)
Definition logsumexp (t : tensor) : float := flog (tsum (texp t)).

(** [Tensor.diag()] of a one-dimensional tensor: the square matrix with the
    tensor on its diagonal and zero elsewhere. *)
Definition diag (t : tensor) : matrix :=
  map (fun i =>
         map (fun j => if Nat.eqb i j then nth i t NaN else Fin 0)
             (seq 0 (length t)))
      (seq 0 (length t)).

(** Integer tensors (category indices) are lists of [Z]. *)
Definition itensor := list Z.

(** Python exceptions raised by the code or by the library. *)
Inductive exn : Type :=
| ValueError (msg : string)
| TypeError
| IndexError
| RuntimeError.

Inductive result (A : Type) : Type :=
| Ok (a : A)
| Raise (e : exn).
Arguments Ok {A} a.
Arguments Raise {A} e.

Definition bind {A B : Type} (r : result A) (k : A -> result B) : result B :=
  match r with
  | Ok a => k a
  | Raise e => Raise e
  end.

Notation "x <- r ;; k" := (bind r (fun x => k))
  (at level 61, r at next level, right associativity).

Definition is_ok {A : Type} (r : result A) : Prop :=
  match r with Ok _ => True | Raise _ => False end.

(** [Tensor.bincount(minlength=n)]: bin [i] holds the number of occurrences
    of [i]; there are [max n (1 + largest entry)] bins; a negative entry is
    refused by the library. *)
Definition largest (X : itensor) : Z := fold_right Z.max (-1)%Z X.

Definition bincount (X : itensor) (minlength : nat) : result (list nat) :=
  if forallb (fun x => (0 <=? x)%Z) X then
    Ok (map (fun i => count_occ Z.eq_dec X (Z.of_nat i))
            (seq 0 (Nat.max minlength (Z.to_nat (largest X + 1)))))
  else Raise RuntimeError.

(** [Tensor.float()] of a tensor of counts. *)
Definition to_float (c : list nat) : tensor := map (fun n => Fin (INR n)) c.

(** [Tensor.gather]/indexing by a tensor of indices: an index outside
    [0, length) is refused by the library. *)
Fixpoint gather (t : tensor) (idx : itensor) : result tensor :=
  match idx with
  | [] => Ok []
  | i :: rest =>
      if ((0 <=? i)%Z && (i <? Z.of_nat (length t))%Z)%bool then
        ys <- gather t rest ;; Ok (nth (Z.to_nat i) t NaN :: ys)
      else Raise RuntimeError
  end.

(** [torch.distributions.Categorical(logits=l)] stores the normalised logits
    [l - l.logsumexp(-1)]; its [log_prob] reads them at the given indices and
    its [sample] draws from their exponentials. *)
Definition Categorical_logits (l : tensor) : tensor :=
  map (fun x => fsub x (logsumexp l)) l.

Definition Categorical_log_prob (l : tensor) (value : itensor) : result tensor :=
  gather (Categorical_logits l) value.

(** ** The random and multivariate-normal part of the tensor library

    The default generator is threaded explicitly.  [uniform g i] and
    [normal g i] are the [i]-th draw of a uniform [0,1) and of a standard
    normal variable from the generator state [g]; [advance g n] is the state
    after [n] draws. *)
Class Torch : Type := {
  generator : Type;
  uniform : generator -> nat -> R;
  normal : generator -> nat -> R;
  advance : generator -> nat -> generator;
  (** [torch.multinomial(probs, n, replacement=True)] *)
  multinomial : generator -> tensor -> nat -> result itensor;
  (** [MultivariateNormal(loc, covariance_matrix).log_prob(value)] *)
  mvn_log_prob : tensor -> matrix -> tensor -> result float;
  (** [MultivariateNormal(loc, covariance_matrix).sample([n])] *)
  mvn_sample : generator -> tensor -> matrix -> nat -> result (list tensor)
}.

(** The sequence object handed to [set_parameters]: a list or tuple supports
    indexing, a generator object does not. *)
Inductive pyobj : Type :=
| PyList (items : list tensor)
| PyGenerator.

(** [params[i]] *)
Definition getitem (params : pyobj) (i : nat) : result tensor :=
  match params with
  | PyList items =>
      match nth_error items i with
      | Some x => Ok x
      | None => Raise IndexError
      end
  | PyGenerator => Raise TypeError
  end.

(** An argument that may or may not be a tensor ([isinstance] test). *)
Inductive pyarg : Type :=
| ATensor (t : tensor)
| AOther.

(** ** CategoricalModel *)

Module CategoricalModel.

Record t : Type := mk { logits : tensor }.

Definition __init__ (probs logits : option tensor) : result t :=
  match probs, logits with
  | Some _, Some _ =>
      Raise (ValueError
               "Both probs and logits provided; only one should be used.")
  | Some p, None => Ok (mk (tlog p))
  | None, Some l => Ok (mk l)
  | None, None =>
      Raise (ValueError "Neither probs or logits provided; one must be.")
  end.

(** [parameters] is a generator function: each [next] reads the field of
    the model as it is at that moment. *)
Inductive pc : Type := Start | Finished.

Definition parameters_next (self : t) (s : pc) : option tensor * pc :=
  match s with
  | Start => (Some (logits self), Finished)
  | Finished => (None, Finished)
  end.

(** [list(self.parameters())] with the model left alone meanwhile. *)
Fixpoint drain (fuel : nat) (self : t) (s : pc) : list tensor :=
  match fuel with
  | O => []
  | S fuel' =>
      match parameters_next self s with
      | (Some x, s') => x :: drain fuel' self s'
      | (None, _) => []
      end
  end.

Definition parameters_list (self : t) : list tensor := drain 2 self Start.

(** [self.parameters()]: calling a generator function runs none of its
    body; it returns a generator object, which can be iterated (as [drain]
    does) but not indexed. *)
Definition parameters (self : t) : pyobj := PyGenerator.

Definition set_parameters (self : t) (params : pyobj) : result unit * t :=
  match getitem params 0 with
  | Ok x => (Ok tt, mk x)
  | Raise e => (Raise e, self)
  end.

Definition log_prob (self : t) (value : itensor) : result tensor :=
  Categorical_log_prob (logits self) value.

Definition fit (self : t) (X : itensor) : result unit * t :=
  match bincount X (length (logits self)) with
  | Ok c =>
      let counts := to_float c in
      let prob := tdiv_scalar counts (tsum counts) in
      (Ok tt, mk (tlog prob))
  | Raise e => (Raise e, self)
  end.

Section Random.
Context {T : Torch}.

(** [torch.rand_like(t)] *)
Definition rand_like (g : generator) (x : tensor) : tensor :=
  map (fun i => Fin (uniform g i)) (seq 0 (length x)).

Definition init_params_random (self : t) (g : generator)
  : result unit * t * generator :=
  (Ok tt, mk (tlog (softmax (rand_like g (logits self)))),
   advance g (length (logits self))).

(** [sample_shape] is a one-dimensional shape [[n]]; [None] stands for
    [torch.tensor([1])]. *)
Definition sample (self : t) (sample_shape : option nat) (g : generator)
  : result itensor * generator :=
  let n := match sample_shape with Some n => n | None => 1%nat end in
  (multinomial g (texp (Categorical_logits (logits self))) n,
   advance g n).
End Random.

End CategoricalModel.

(** ** DiagNormalModel *)

(** A batch of observations: a two-dimensional tensor with [dim] columns,
    one observation per row. *)
Record batch : Type := mkbatch { dim : nat; rows : list tensor }.

Definition column (X : batch) (j : nat) : tensor :=
  map (fun r => nth j r NaN) (rows X).

(** [Tensor.mean(0)]: per column, the sum over the number of rows. *)
Definition mean (c : tensor) : float :=
  fdiv (tsum c) (Fin (INR (length c))).

Definition mean0 (X : batch) : tensor :=
  map (fun j => mean (column X j)) (seq 0 (dim X)).

(** [Tensor.std(0)]: the library's default is [unbiased=True], Bessel's
    correction: the sum of squared deviations is divided by
    [max 0 (N - 1)] before the square root is taken. *)
Definition sq_dev (mu x : float) : float :=
  fmul (fsub x mu) (fsub x mu).

Definition std (c : tensor) : float :=
  fsqrt (fdiv (tsum (map (sq_dev (mean c)) c))
              (Fin (INR (length c - 1)))).

Definition std0 (X : batch) : tensor :=
  map (fun j => std (column X j)) (seq 0 (dim X)).

Module DiagNormalModel.

Record t : Type := mk { means : tensor; covs : tensor }.

Definition __init__ (means covs : pyarg) : result t :=
  match means with
  | AOther => Raise (ValueError "Means must be a tensor.")
  | ATensor m =>
      match covs with
      | AOther => Raise (ValueError "Covs must be a tensor.")
      | ATensor c =>
          if Nat.eqb (length m) (length c) then Ok (mk m c)
          else Raise (ValueError "Means and covs must have same shape!")
      end
  end.

(** The generator function [parameters]: two [yield]s, each reading the
    field when it is reached. *)
Inductive pc : Type := Start | Yielded_means | Finished.

Definition parameters_next (self : t) (s : pc) : option tensor * pc :=
  match s with
  | Start => (Some (means self), Yielded_means)
  | Yielded_means => (Some (covs self), Finished)
  | Finished => (None, Finished)
  end.

Fixpoint drain (fuel : nat) (self : t) (s : pc) : list tensor :=
  match fuel with
  | O => []
  | S fuel' =>
      match parameters_next self s with
      | (Some x, s') => x :: drain fuel' self s'
      | (None, _) => []
      end
  end.

Definition parameters_list (self : t) : list tensor := drain 3 self Start.

(** [self.parameters()]: a generator object, as for the categorical
    model. *)
Definition parameters (self : t) : pyobj := PyGenerator.

(** [set_parameters] prints its argument, then assigns the two fields one
    after the other; the third component is what was written to the
    standard output. *)
Definition set_parameters (self : t) (params : pyobj)
  : result unit * t * list pyobj :=
  match getitem params 0 with
  | Raise e => (Raise e, self, [params])
  | Ok x =>
      let self1 := mk x (covs self) in
      match getitem params 1 with
      | Raise e => (Raise e, self1, [params])
      | Ok y => (Ok tt, mk x y, [params])
      end
  end.

Definition fit (self : t) (X : batch) : result unit * t :=
  (Ok tt, mk (mean0 X) (tpow2 (std0 X))).

Section Random.
Context {T : Torch}.

(** [Tensor.normal_()] and [Tensor.log_normal_()] (defaults [mean=1],
    [std=2]) redraw every element of the tensor they are called on. *)
Definition normal_ (g : generator) (x : tensor) : tensor :=
  map (fun i => Fin (normal g i)) (seq 0 (length x)).

Definition log_normal_ (g : generator) (x : tensor) : tensor :=
  map (fun i => Fin (exp (1 + 2 * normal g i))) (seq 0 (length x)).

(** [init_params_random] writes the tensor held in [means] in place, then
    the tensor held in [covs].  The library refuses an in-place write to a
    leaf tensor that requires a gradient and a random fill of a tensor of
    integer type; [means_writable] and [covs_writable] say whether the
    tensor objects held in the two fields accept the write.  A refused
    write raises and leaves the tensor as it was; the write made before it
    stays. *)
Definition init_params_random_in_place
  (self : t) (means_writable covs_writable : bool) (g : generator)
  : result unit * t * generator :=
  if means_writable then
    let self1 := mk (normal_ g (means self)) (covs self) in
    let g1 := advance g (length (means self)) in
    if covs_writable then
      (Ok tt, mk (means self1) (log_normal_ g1 (covs self1)),
       advance g1 (length (covs self1)))
    else (Raise RuntimeError, self1, g1)
  else (Raise RuntimeError, self, g).

(** [init_params_random] on two tensors that accept in-place writes. *)
Definition init_params_random (self : t) (g : generator)
  : result unit * t * generator :=
  let g1 := advance g (length (means self)) in
  (Ok tt, mk (normal_ g (means self)) (log_normal_ g1 (covs self)),
   advance g1 (length (covs self))).

Definition sample (self : t) (sample_shape : option nat) (g : generator)
  : result (list tensor) * generator :=
  let n := match sample_shape with Some n => n | None => 1%nat end in
  (mvn_sample g (means self) (diag (tabs (covs self))) n, advance g n).

Definition log_prob (self : t) (value : tensor) : result float :=
  mvn_log_prob (means self) (diag (tabs (covs self))) value.
End Random.

End DiagNormalModel.

(** What the models rely on from [MultivariateNormal]: a diagonal covariance
    matrix whose diagonal is finite and strictly positive is positive
    definite and is accepted, for a location and a value of its dimension. *)
Definition accepts_positive_definite (T : Torch) : Prop :=
  forall loc d value,
    length loc = length d -> length value = length d ->
    Forall is_pos_finite d ->
    is_ok (mvn_log_prob loc (diag d) value)
    /\ forall g n, is_ok (mvn_sample g loc (diag d) n).

(** ** A deterministic instance of the library interface

    It serves to exhibit concrete runs.  Its multivariate normal computes
    the density of independent normal variables for a covariance matrix with
    a finite positive diagonal and refuses the others, as the Cholesky
    factorisation of the library refuses a matrix that is not positive
    definite; its draws are constants. *)
Module Reference.

Fixpoint finite_values (x : tensor) : option (list R) :=
  match x with
  | [] => Some []
  | Fin r :: x' =>
      match finite_values x' with
      | Some rs => Some (r :: rs)
      | None => None
      end
  | _ :: _ => None
  end.

Definition diagonal (M : matrix) : tensor :=
  map (fun i => nth i (nth i M []) NaN) (seq 0 (length M)).

Definition all_positive (l : list R) : bool :=
  forallb (fun r => if Rlt_dec 0 r then true else false) l.

Fixpoint log_density (loc var value : list R) : R :=
  match loc, var, value with
  | m :: loc', v :: var', x :: value' =>
      - (ln (2 * PI * v) + (x - m) * (x - m) / v) / 2
      + log_density loc' var' value'
  | _, _, _ => 0
  end.

Definition accepted (loc : tensor) (M : matrix) : option (list R) :=
  if Nat.eqb (length loc) (length M) then
    match finite_values (diagonal M) with
    | Some var => if all_positive var then Some var else None
    | None => None
    end
  else None.

Definition log_prob (loc : tensor) (M : matrix) (value : tensor)
  : result float :=
  match accepted loc M with
  | Some var =>
      if Nat.eqb (length value) (length M) then
        match finite_values loc, finite_values value with
        | Some m, Some x => Ok (Fin (log_density m var x))
        | _, _ => Ok NaN
        end
      else Raise (ValueError "value has the wrong shape")
  | None => Raise (ValueError "invalid covariance_matrix")
  end.

Definition draw (g : nat) (loc : tensor) (M : matrix) (n : nat)
  : result (list tensor) :=
  match accepted loc M with
  | Some _ => Ok (repeat loc n)
  | None => Raise (ValueError "invalid covariance_matrix")
  end.

Definition torch : Torch :=
  {| generator := nat;
     uniform := fun _ _ => / 2;
     normal := fun _ _ => 0;
     advance := fun g n => (g + n)%nat;
     multinomial := fun _ probs n =>
       match probs with
       | [] => Raise RuntimeError
       | _ :: _ => Ok (repeat 0%Z n)
       end;
     mvn_log_prob := log_prob;
     mvn_sample := draw |}.

End Reference.

(** * Properties *)

Module C := CategoricalModel.
Module D := DiagNormalModel.

(** ** Construction *)

(** C6. Constructing a [CategoricalModel] raises [ValueError] when both
    [probs] and [logits] are supplied and when neither is; with [probs]
    alone it succeeds and stores [probs.log()], with [logits] alone it
    succeeds and stores them as they are. *)
Theorem categorical_init_exactly_one :
  (forall p l, exists msg, C.__init__ (Some p) (Some l) = Raise (ValueError msg))
  /\ (exists msg, C.__init__ None None = Raise (ValueError msg))
  /\ (forall p, C.__init__ (Some p) None = Ok (C.mk (tlog p)))
  /\ (forall l, C.__init__ None (Some l) = Ok (C.mk l))
  /\ (forall probs logits,
        is_ok (C.__init__ probs logits) <->
        (probs <> None /\ logits = None) \/ (probs = None /\ logits <> None)).
Proof.
  repeat split.
  - intros p l. eexists. reflexivity.
  - eexists. reflexivity.
  - destruct probs as [p|], logits as [l|]; simpl; intros H;
      try contradiction.
    + left. split; [discriminate | reflexivity].
    + right. split; [reflexivity | discriminate].
  - destruct probs as [p|], logits as [l|]; simpl; intros [[H1 H2]|[H1 H2]];
      try discriminate; try congruence; exact I.
Qed.

(** C7. For every vector [p], the model built from [probs = p] and the model
    built from [logits = p.log()] are the same model, so [log_prob] and
    [sample] agree on every input. *)
Theorem probs_logits_construction_equivalent
  {T : Torch} (p : tensor) :
  exists m1 m2,
    C.__init__ (Some p) None = Ok m1
    /\ C.__init__ None (Some (tlog p)) = Ok m2
    /\ m1 = m2
    /\ (forall value, C.log_prob m1 value = C.log_prob m2 value)
    /\ (forall shape g, C.sample m1 shape g = C.sample m2 shape g).
Proof.
  exists (C.mk (tlog p)), (C.mk (tlog p)).
  repeat split; reflexivity.
Qed.

(** ** Round trip of the parameters *)

Lemma categorical_parameters_list (c : C.t) :
  C.parameters_list c = [C.logits c].
Proof. reflexivity. Qed.

Lemma diag_normal_parameters_list (d : D.t) :
  D.parameters_list d = [D.means d; D.covs d].
Proof. reflexivity. Qed.

Lemma categorical_set_parameters_list (c : C.t) :
  C.set_parameters c (PyList (C.parameters_list c)) = (Ok tt, c).
Proof. destruct c as [l]. reflexivity. Qed.

Lemma diag_normal_set_parameters_list (d : D.t) :
  D.set_parameters d (PyList (D.parameters_list d))
  = (Ok tt, d, [PyList (D.parameters_list d)]).
Proof. destruct d as [m c]. reflexivity. Qed.

(** C1. [parameters] is a generator function, so the value it returns
    cannot be indexed: handed to [set_parameters], [params[0]] raises
    [TypeError] before any field is assigned, for both models, and the round
    trip does not take place.  With the parameters collected in a list the
    call succeeds and stores the same tensors, after which [log_prob] and
    [sample] (from the same generator state) return what they returned
    before. *)
Theorem set_parameters_of_parameters_raises
  {T : Torch} (c : C.t) (d : D.t) :
  let c1 := snd (C.set_parameters c (PyList (C.parameters_list c))) in
  let d1 := snd (fst (D.set_parameters d (PyList (D.parameters_list d)))) in
  C.set_parameters c (C.parameters c) = (Raise TypeError, c)
  /\ D.set_parameters d (D.parameters d)
     = (Raise TypeError, d, [D.parameters d])
  /\ fst (C.set_parameters c (PyList (C.parameters_list c))) = Ok tt
  /\ fst (fst (D.set_parameters d (PyList (D.parameters_list d)))) = Ok tt
  /\ (forall value, C.log_prob c1 value = C.log_prob c value)
  /\ (forall shape g, C.sample c1 shape g = C.sample c shape g)
  /\ (forall value, D.log_prob d1 value = D.log_prob d value)
  /\ (forall shape g, D.sample d1 shape g = D.sample d shape g).
Proof.
  cbv zeta.
  rewrite categorical_set_parameters_list, diag_normal_set_parameters_list.
  repeat split.
Qed.

(** ** Arithmetic of finite tensors *)

(** The sum of a list of reals, to state what [tsum] computes on finite
    tensors. *)
Definition Rsum (l : list R) : R := fold_right Rplus 0 l.

Lemma tsum_Fin (l : list R) : tsum (map Fin l) = Fin (Rsum l).
Proof.
  induction l as [|x l IH]; [reflexivity|].
  unfold tsum in *. cbn [map fold_right]. rewrite IH. reflexivity.
Qed.

Lemma Rsum_nonneg (l : list R) : Forall (fun x => 0 <= x) l -> 0 <= Rsum l.
Proof.
  induction 1 as [|x l Hx _ IH]; simpl; lra.
Qed.

Lemma Rsum_pos (l : list R) :
  l <> [] -> Forall (fun x => 0 < x) l -> 0 < Rsum l.
Proof.
  intros Hne Hall. destruct Hall as [|x l Hx Hl]; [congruence|].
  simpl. assert (0 <= Rsum l).
  { apply Rsum_nonneg. eapply Forall_impl; [|exact Hl]. simpl. intros; lra. }
  lra.
Qed.

Lemma Rsum_map_div (l : list R) (s : R) :
  Rsum (map (fun x => x / s) l) = Rsum l / s.
Proof.
  induction l as [|x l IH]; simpl.
  - unfold Rdiv. lra.
  - rewrite IH. unfold Rdiv. lra.
Qed.

Lemma Rsum_map_mul (l : list R) (c : R) :
  Rsum (map (fun x => c * x) l) = c * Rsum l.
Proof.
  induction l as [|x l IH]; simpl; [lra|]. rewrite IH. lra.
Qed.

Lemma flog_Fin_pos (r : R) : 0 < r -> flog (Fin r) = Fin (ln r).
Proof.
  intros Hr. simpl. destruct (total_order_T r 0) as [[H|H]|H]; try lra.
  reflexivity.
Qed.

Lemma flog_Fin_zero : flog (Fin 0) = NInf.
Proof.
  simpl. destruct (total_order_T 0 0) as [[H|H]|H]; try lra. reflexivity.
Qed.

Lemma fdiv_Fin (a s : R) : s <> 0 -> fdiv (Fin a) (Fin s) = Fin (a / s).
Proof.
  intros Hs. simpl. destruct (Req_dec_T s 0); [contradiction|reflexivity].
Qed.

Lemma fdiv_zero_zero : fdiv (Fin 0) (Fin 0) = NaN.
Proof.
  simpl. destruct (Req_dec_T 0 0) as [_|H]; [|lra].
  unfold inf_of_sign. destruct (total_order_T 0 0) as [[H|H]|H]; try lra.
  reflexivity.
Qed.

Lemma fsqrt_Fin_nonneg (r : R) : 0 <= r -> fsqrt (Fin r) = Fin (sqrt r).
Proof.
  intros Hr. simpl. destruct (Rlt_dec r 0); [lra|reflexivity].
Qed.

(** The exponential undoes the logarithm on every non-negative finite
    value, zero included ([log 0 = -inf], [exp (-inf) = 0]). *)
Lemma fexp_flog_nonneg (r : R) : 0 <= r -> fexp (flog (Fin r)) = Fin r.
Proof.
  intros Hr. simpl. destruct (total_order_T r 0) as [[H|H]|H]; try lra.
  - subst. reflexivity.
  - simpl. rewrite exp_ln by lra. reflexivity.
Qed.

Lemma texp_tlog_nonneg (q : list R) :
  Forall (fun x => 0 <= x) q -> texp (tlog (map Fin q)) = map Fin q.
Proof.
  induction 1 as [|x q Hx _ IH]; [reflexivity|].
  unfold texp, tlog in *. cbn [map]. rewrite IH.
  f_equal. apply fexp_flog_nonneg. exact Hx.
Qed.

Lemma tlog_pos (q : list R) :
  Forall (fun x => 0 < x) q -> tlog (map Fin q) = map (fun x => Fin (ln x)) q.
Proof.
  induction 1 as [|x q Hx _ IH]; [reflexivity|].
  unfold tlog in *. cbn [map]. rewrite IH, flog_Fin_pos by exact Hx.
  reflexivity.
Qed.

Lemma fsub_zero (x : float) : fsub x (Fin 0) = x.
Proof.
  destruct x; try reflexivity. unfold fsub. simpl. f_equal. lra.
Qed.

(** A tensor of logarithms of non-negative values that sum to one is left
    unchanged by the normalisation of [Categorical]. *)
Lemma Categorical_logits_normalised (q : list R) :
  Forall (fun x => 0 <= x) q -> Rsum q = 1 ->
  Categorical_logits (tlog (map Fin q)) = tlog (map Fin q).
Proof.
  intros Hq Hs. unfold Categorical_logits, logsumexp.
  rewrite texp_tlog_nonneg by exact Hq.
  rewrite tsum_Fin, Hs, flog_Fin_pos by lra. rewrite ln_1.
  erewrite map_ext; [apply map_id|]. intros x. apply fsub_zero.
Qed.

(** Normalisation by [Categorical] of the logarithms of positive values. *)
Lemma Categorical_logits_of_pos (q : list R) :
  q <> [] -> Forall (fun x => 0 < x) q ->
  Categorical_logits (tlog (map Fin q))
  = map (fun x => Fin (ln (x / Rsum q))) q.
Proof.
  intros Hne Hq. pose proof (Rsum_pos q Hne Hq) as HS.
  unfold Categorical_logits, logsumexp.
  rewrite texp_tlog_nonneg
    by (eapply Forall_impl; [|exact Hq]; simpl; intros; lra).
  rewrite tsum_Fin, flog_Fin_pos by exact HS.
  rewrite tlog_pos by exact Hq. rewrite map_map.
  apply map_ext_in. intros x Hx.
  rewrite Forall_forall in Hq. specialize (Hq x Hx).
  unfold fsub. simpl. f_equal.
  unfold Rdiv. rewrite ln_mult; try lra.
  - rewrite ln_Rinv by lra. reflexivity.
  - apply Rinv_0_lt_compat. exact HS.
Qed.

Lemma texp_Fin (u : list R) : texp (map Fin u) = map Fin (map exp u).
Proof. unfold texp. rewrite !map_map. reflexivity. Qed.

Lemma tdiv_scalar_Fin (q : list R) (s : R) :
  s <> 0 -> tdiv_scalar (map Fin q) (Fin s) = map Fin (map (fun x => x / s) q).
Proof.
  intros Hs. unfold tdiv_scalar. rewrite !map_map.
  apply map_ext. intros x. apply fdiv_Fin. exact Hs.
Qed.

Lemma Forall_exp_pos (u : list R) : Forall (fun x => 0 < x) (map exp u).
Proof.
  apply Forall_forall. intros x Hx. apply in_map_iff in Hx.
  destruct Hx as [y [<- _]]. apply exp_pos.
Qed.

(** The softmax of a finite, non-empty tensor, as a list of reals. *)
Definition softmax_R (u : list R) : list R :=
  map (fun x => x / Rsum (map exp u)) (map exp u).

Lemma softmax_Fin (u : list R) :
  u <> [] -> softmax (map Fin u) = map Fin (softmax_R u).
Proof.
  intros Hne. unfold softmax, softmax_R.
  rewrite texp_Fin, tsum_Fin. apply tdiv_scalar_Fin.
  assert (0 < Rsum (map exp u)); [|lra].
  apply Rsum_pos; [|apply Forall_exp_pos].
  destruct u; [congruence|discriminate].
Qed.

Lemma softmax_R_pos (u : list R) :
  u <> [] -> Forall (fun x => 0 < x) (softmax_R u).
Proof.
  intros Hne.
  assert (HS : 0 < Rsum (map exp u)).
  { apply Rsum_pos; [|apply Forall_exp_pos].
    destruct u; [congruence|discriminate]. }
  apply Forall_forall. intros x Hx. unfold softmax_R in Hx.
  apply in_map_iff in Hx. destruct Hx as [y [<- Hy]].
  pose proof (Forall_exp_pos u) as Hp. rewrite Forall_forall in Hp.
  apply Rdiv_lt_0_compat; [apply Hp; exact Hy | exact HS].
Qed.

Lemma softmax_R_sum (u : list R) : u <> [] -> Rsum (softmax_R u) = 1.
Proof.
  intros Hne. unfold softmax_R. rewrite Rsum_map_div.
  assert (0 < Rsum (map exp u)).
  { apply Rsum_pos; [|apply Forall_exp_pos].
    destruct u; [congruence|discriminate]. }
  field. lra.
Qed.

Lemma Forall_pos_nonneg (q : list R) :
  Forall (fun x => 0 < x) q -> Forall (fun x => 0 <= x) q.
Proof. apply Forall_impl. intros; lra. Qed.

(** The logarithm of a vector of positive reals that sum to one: every
    entry is finite, and both the exponentials and the softmax of the result
    sum to one. *)
Lemma tlog_distribution (q : list R) :
  Forall (fun x => 0 < x) q -> Rsum q = 1 ->
  Forall is_finite (tlog (map Fin q))
  /\ tsum (texp (tlog (map Fin q))) = Fin 1
  /\ tsum (softmax (tlog (map Fin q))) = Fin 1.
Proof.
  intros Hq Hs. pose proof (Forall_pos_nonneg q Hq) as Hq0.
  repeat split.
  - rewrite tlog_pos by exact Hq. apply Forall_forall. intros x Hx.
    apply in_map_iff in Hx. destruct Hx as [y [<- _]]. exact I.
  - rewrite texp_tlog_nonneg by exact Hq0. rewrite tsum_Fin, Hs. reflexivity.
  - unfold softmax. rewrite texp_tlog_nonneg by exact Hq0.
    rewrite tsum_Fin, Hs, tdiv_scalar_Fin by lra.
    rewrite tsum_Fin, Rsum_map_div, Hs. f_equal. lra.
Qed.

(** ** Random initialisation of the categorical model *)

Lemma rand_like_Fin {T : Torch} (g : generator) (x : tensor) :
  C.rand_like g x = map Fin (map (uniform g) (seq 0 (length x))).
Proof. unfold C.rand_like. rewrite map_map. reflexivity. Qed.

(** C9. After [init_params_random] on a model with at least one category,
    every stored logit is finite and the logits are the logarithm of a
    normalised distribution: their exponentials sum to one and so does their
    softmax.  The call never raises and keeps the number of categories. *)
Theorem init_params_random_normalised
  {T : Torch} (self : C.t) (g : generator) :
  C.logits self <> [] ->
  let self' := snd (fst (C.init_params_random self g)) in
  fst (fst (C.init_params_random self g)) = Ok tt
  /\ length (C.logits self') = length (C.logits self)
  /\ Forall is_finite (C.logits self')
  /\ tsum (texp (C.logits self')) = Fin 1
  /\ tsum (softmax (C.logits self')) = Fin 1.
Proof.
  intros Hne. cbv zeta. unfold C.init_params_random. cbn [fst snd C.logits].
  set (u := map (uniform g) (seq 0 (length (C.logits self)))).
  assert (Hu : u <> []).
  { unfold u. destruct (C.logits self); [congruence|discriminate]. }
  rewrite rand_like_Fin. fold u.
  split; [reflexivity|]. split.
  - unfold tlog, softmax, tdiv_scalar, texp. rewrite !length_map.
    unfold u. rewrite length_map, length_seq. reflexivity.
  - rewrite softmax_Fin by exact Hu.
    apply tlog_distribution;
      [apply softmax_R_pos | apply softmax_R_sum]; exact Hu.
Qed.

Lemma init_params_random_normalised_witness :
  let self := C.mk [Fin 0; NaN; NInf] in
  let self' := snd (fst (@C.init_params_random Reference.torch self 0%nat)) in
  Forall is_finite (C.logits self')
  /\ tsum (texp (C.logits self')) = Fin 1.
Proof.
  cbv zeta.
  pose proof (@init_params_random_normalised Reference.torch
                (C.mk [Fin 0; NaN; NInf]) 0%nat) as H.
  cbv zeta in H.
  assert (Hne : C.logits (C.mk [Fin 0; NaN; NInf]) <> []) by discriminate.
  destruct (H Hne) as [_ [_ [Hfin [Hsum _]]]].
  split; assumption.
Defined.

(** ** Reading a tensor at every index *)

(** The full support [0, 1, ..., K-1] as an index tensor. *)
Definition support (K : nat) : itensor := map Z.of_nat (seq 0 K).

Lemma skipn_nth_cons (t : tensor) (a : nat) :
  (a < length t)%nat -> skipn a t = nth a t NaN :: skipn (S a) t.
Proof.
  revert a. induction t as [|x t IH]; intros a Ha; simpl in Ha; [lia|].
  destruct a as [|a]; [reflexivity|].
  cbn [skipn nth]. rewrite IH by lia. reflexivity.
Qed.

Lemma gather_seq (t : tensor) (n a : nat) :
  (a + n <= length t)%nat ->
  gather t (map Z.of_nat (seq a n)) = Ok (firstn n (skipn a t)).
Proof.
  revert a. induction n as [|n IH]; intros a Ha; [reflexivity|].
  cbn [seq map gather].
  assert (Hin : ((0 <=? Z.of_nat a)%Z
                 && (Z.of_nat a <? Z.of_nat (length t))%Z)%bool = true).
  { apply andb_true_iff. split; [apply Z.leb_le | apply Z.ltb_lt]; lia. }
  rewrite Hin, IH by lia. cbn [bind].
  rewrite Nat2Z.id, (skipn_nth_cons t a) by lia. reflexivity.
Qed.

Lemma gather_support (t : tensor) : gather t (support (length t)) = Ok t.
Proof.
  unfold support. rewrite gather_seq by lia.
  rewrite skipn_O, firstn_all. reflexivity.
Qed.

(** ** Self-normalisation of [log_prob] *)

Lemma tmul_scalar_Fin (c : R) (p : list R) :
  tmul_scalar (Fin c) (map Fin p) = map Fin (map (fun x => c * x) p).
Proof. unfold tmul_scalar. rewrite !map_map. reflexivity. Qed.

(** The probabilities [p / sum p]. *)
Definition normalise_R (p : list R) : list R := map (fun x => x / Rsum p) p.

Lemma normalise_R_pos (p : list R) :
  p <> [] -> Forall (fun x => 0 < x) p -> Forall (fun x => 0 < x) (normalise_R p).
Proof.
  intros Hne Hp. pose proof (Rsum_pos p Hne Hp) as HS.
  apply Forall_forall. intros x Hx. apply in_map_iff in Hx.
  destruct Hx as [y [<- Hy]]. rewrite Forall_forall in Hp.
  apply Rdiv_lt_0_compat; [apply Hp; exact Hy | exact HS].
Qed.

Lemma normalise_R_sum (p : list R) :
  p <> [] -> Forall (fun x => 0 < x) p -> Rsum (normalise_R p) = 1.
Proof.
  intros Hne Hp. pose proof (Rsum_pos p Hne Hp) as HS.
  unfold normalise_R. rewrite Rsum_map_div. field. lra.
Qed.

Lemma normalise_R_scale (c : R) (p : list R) :
  0 < c -> p <> [] -> Forall (fun x => 0 < x) p ->
  normalise_R (map (fun x => c * x) p) = normalise_R p.
Proof.
  intros Hc Hne Hp. pose proof (Rsum_pos p Hne Hp) as HS.
  unfold normalise_R. rewrite map_map, Rsum_map_mul.
  apply map_ext. intros x. field. lra.
Qed.

Lemma Categorical_logits_normalise (p : list R) :
  p <> [] -> Forall (fun x => 0 < x) p ->
  Categorical_logits (tlog (map Fin p)) = tlog (map Fin (normalise_R p)).
Proof.
  intros Hne Hp. rewrite Categorical_logits_of_pos by assumption.
  rewrite tlog_pos by (apply normalise_R_pos; assumption).
  unfold normalise_R. rewrite map_map. reflexivity.
Qed.

Lemma Forall_scaled_pos (c : R) (p : list R) :
  0 < c -> Forall (fun x => 0 < x) p ->
  Forall (fun x => 0 < x) (map (fun x => c * x) p).
Proof.
  intros Hc Hp. apply Forall_forall. intros x Hx.
  apply in_map_iff in Hx. destruct Hx as [y [<- Hy]].
  rewrite Forall_forall in Hp. apply Rmult_lt_0_compat; [exact Hc|].
  apply Hp. exact Hy.
Qed.

(** C10. For a positive scalar [c] and a vector [p] of positive entries,
    the model built from [probs = c * p] and the model built from
    [probs = p] give the same [log_prob] on every input; and when [p] has at
    least one entry, the exponentials of [log_prob] over the full support
    [0 .. K-1] sum to one, for both models. *)
Theorem log_prob_scale_invariant
  (c : R) (p : list R) (m1 m2 : C.t) :
  0 < c ->
  Forall (fun x => 0 < x) p ->
  C.__init__ (Some (tmul_scalar (Fin c) (map Fin p))) None = Ok m1 ->
  C.__init__ (Some (map Fin p)) None = Ok m2 ->
  (forall value, C.log_prob m1 value = C.log_prob m2 value)
  /\ (p <> [] ->
      exists lp,
        C.log_prob m1 (support (length p)) = Ok lp
        /\ C.log_prob m2 (support (length p)) = Ok lp
        /\ tsum (texp lp) = Fin 1).
Proof.
  intros Hc Hp H1 H2. cbn in H1, H2.
  injection H1 as <-. injection H2 as <-.
  unfold C.log_prob, Categorical_log_prob. cbn [C.logits].
  rewrite tmul_scalar_Fin.
  destruct p as [|x p'] eqn:Ep.
  { split; [reflexivity|]. intros H. congruence. }
  rewrite <- Ep in *.
  assert (Hne : p <> []) by (rewrite Ep; discriminate).
  assert (Hne' : map (fun x => c * x) p <> []) by (rewrite Ep; discriminate).
  rewrite (Categorical_logits_normalise (map (fun x => c * x) p))
    by (try exact Hne'; apply Forall_scaled_pos; assumption).
  rewrite normalise_R_scale by assumption.
  rewrite <- Categorical_logits_normalise by assumption.
  split; [reflexivity|]. intros _.
  exists (Categorical_logits (tlog (map Fin p))).
  assert (Hlen : length p = length (Categorical_logits (tlog (map Fin p)))).
  { unfold Categorical_logits, tlog. rewrite !length_map. reflexivity. }
  rewrite Hlen at 1 2. rewrite gather_support.
  repeat split.
  rewrite Categorical_logits_normalise by assumption.
  apply tlog_distribution;
    [apply normalise_R_pos | apply normalise_R_sum]; assumption.
Qed.

Lemma log_prob_scale_invariant_witness :
  C.log_prob (C.mk (tlog (tmul_scalar (Fin 2) (map Fin [1; 3])))) [1%Z; 0%Z]
  = C.log_prob (C.mk (tlog (map Fin [1; 3]))) [1%Z; 0%Z].
Proof.
  refine (proj1 (log_prob_scale_invariant 2 [1; 3] _ _ _ _ eq_refl eq_refl)
                [1%Z; 0%Z]).
  - lra.
  - repeat constructor; lra.
Defined.

(** ** Fitting the categorical model *)

(** The number of occurrences of category [i] in [X]. *)
Definition occurrences (X : itensor) (i : nat) : nat :=
  count_occ Z.eq_dec X (Z.of_nat i).

Definition total (c : list nat) : nat := fold_right Nat.add 0%nat c.

(** The empirical distribution of [X] over the bins [0 .. K-1]. *)
Definition empirical (X : itensor) (K : nat) : list R :=
  map (fun i => INR (occurrences X i) / INR (length X)) (seq 0 K).

Definition in_range (K : nat) (x : Z) : Prop := (0 <= x < Z.of_nat K)%Z.

Lemma largest_in_range (K : nat) (X : itensor) :
  Forall (in_range K) X -> (-1 <= largest X < Z.of_nat K)%Z.
Proof.
  induction 1 as [|x X Hx _ IH]; [simpl; lia|].
  unfold in_range in Hx. unfold largest in *. cbn [fold_right]. lia.
Qed.

Lemma bincount_in_range (K : nat) (X : itensor) :
  Forall (in_range K) X ->
  bincount X K = Ok (map (occurrences X) (seq 0 K)).
Proof.
  intros HX. unfold bincount.
  assert (Hnn : forallb (fun x => (0 <=? x)%Z) X = true).
  { apply forallb_forall. intros x Hx. rewrite Forall_forall in HX.
    apply Z.leb_le. apply (HX x Hx). }
  rewrite Hnn. pose proof (largest_in_range K X HX) as HL.
  replace (Nat.max K (Z.to_nat (largest X + 1))) with K by lia.
  reflexivity.
Qed.

Lemma total_indicator (x : Z) (n a : nat) :
  total (map (fun i => if Z.eq_dec x (Z.of_nat i) then 1%nat else 0%nat)
             (seq a n))
  = if ((Z.of_nat a <=? x)%Z && (x <? Z.of_nat (a + n))%Z)%bool
    then 1%nat else 0%nat.
Proof.
  revert a. induction n as [|n IH]; intros a.
  - simpl. destruct (Z.leb_spec (Z.of_nat a) x), (Z.ltb_spec x (Z.of_nat (a + 0)));
      simpl; try reflexivity; lia.
  - cbn [seq map total fold_right]. fold (total (map
      (fun i => if Z.eq_dec x (Z.of_nat i) then 1%nat else 0%nat)
      (seq (S a) n))).
    rewrite IH.
    destruct (Z.eq_dec x (Z.of_nat a)) as [E|E];
      destruct (Z.leb_spec (Z.of_nat (S a)) x),
               (Z.ltb_spec x (Z.of_nat (S a + n))),
               (Z.leb_spec (Z.of_nat a) x),
               (Z.ltb_spec x (Z.of_nat (a + S n)));
      simpl; try reflexivity; lia.
Qed.

Lemma total_map_add (f h : nat -> nat) (l : list nat) :
  total (map (fun i => (f i + h i)%nat) l)
  = (total (map f l) + total (map h l))%nat.
Proof.
  induction l as [|i l IH]; [reflexivity|].
  cbn [map total fold_right]. unfold total in IH. rewrite IH. lia.
Qed.

Lemma total_occurrences (K : nat) (X : itensor) :
  Forall (in_range K) X -> total (map (occurrences X) (seq 0 K)) = length X.
Proof.
  induction 1 as [|x X Hx _ IH].
  - unfold occurrences. simpl. induction (seq 0 K); simpl; auto.
  - rewrite (map_ext (occurrences (x :: X))
               (fun i => ((if Z.eq_dec x (Z.of_nat i) then 1 else 0)
                          + occurrences X i)%nat)).
    + rewrite total_map_add, IH, total_indicator.
      unfold in_range in Hx.
      destruct (Z.leb_spec (Z.of_nat 0) x), (Z.ltb_spec x (Z.of_nat (0 + K)));
        simpl; try reflexivity; lia.
    + intros i. unfold occurrences. simpl.
      destruct (Z.eq_dec x (Z.of_nat i)); reflexivity.
Qed.

Lemma to_float_Fin (c : list nat) : to_float c = map Fin (map INR c).
Proof. unfold to_float. rewrite map_map. reflexivity. Qed.

Lemma Rsum_INR (c : list nat) : Rsum (map INR c) = INR (total c).
Proof.
  induction c as [|n c IH]; [reflexivity|].
  cbn [map Rsum fold_right total]. unfold Rsum in IH. rewrite IH.
  fold (total c). rewrite plus_INR. reflexivity.
Qed.

Lemma empirical_nonneg (X : itensor) (K : nat) :
  X <> [] -> Forall (fun x => 0 <= x) (empirical X K).
Proof.
  intros Hne. apply Forall_forall. intros q Hq. apply in_map_iff in Hq.
  destruct Hq as [i [<- _]].
  assert (0 < INR (length X)).
  { apply lt_0_INR. destruct X; [congruence|simpl; lia]. }
  apply Rmult_le_pos; [apply pos_INR|].
  apply Rlt_le, Rinv_0_lt_compat. assumption.
Qed.

Lemma empirical_sum (X : itensor) (K : nat) :
  X <> [] -> Forall (in_range K) X -> Rsum (empirical X K) = 1.
Proof.
  intros Hne HX. unfold empirical.
  rewrite <- (map_map (occurrences X) (fun n => INR n / INR (length X))).
  rewrite <- (map_map INR (fun r => r / INR (length X))).
  rewrite Rsum_map_div, Rsum_INR, total_occurrences by exact HX.
  assert (0 < INR (length X)).
  { apply lt_0_INR. destruct X; [congruence|simpl; lia]. }
  field. lra.
Qed.

(** What [fit] stores for data inside the bins of the model. *)
Lemma fit_in_range (self : C.t) (X : itensor) :
  X <> [] -> Forall (in_range (length (C.logits self))) X ->
  C.fit self X
  = (Ok tt, C.mk (tlog (map Fin (empirical X (length (C.logits self)))))).
Proof.
  intros Hne HX. unfold C.fit. rewrite bincount_in_range by exact HX.
  cbv zeta. rewrite to_float_Fin, tsum_Fin, Rsum_INR.
  rewrite total_occurrences by exact HX.
  assert (0 < INR (length X)).
  { apply lt_0_INR. destruct X; [congruence|simpl; lia]. }
  rewrite tdiv_scalar_Fin by lra.
  unfold empirical. rewrite !map_map. reflexivity.
Qed.

Lemma empirical_example :
  empirical [0; 0; 1; 1; 1; 2]%Z 3 = [2 / 6; 3 / 6; 1 / 6].
Proof.
  unfold empirical, occurrences. cbn [seq map length].
  rewrite !INR_IZR_INZ. cbn. reflexivity.
Qed.

Lemma gather_second (a b c : float) : gather [a; b; c] [1%Z] = Ok [b].
Proof. reflexivity. Qed.

(** C5. [fit] on a non-empty sequence of category indices lying in
    [0 .. K-1] stores the logarithm of the empirical distribution over the
    bins [0 .. K-1]: the counts divided by the number of observations, a
    vector that sums to one, which [log_prob] then returns unchanged.  On
    the data [[0, 0, 1, 1, 1, 2]] with [K = 3] the probabilities are
    [[2/6, 3/6, 1/6]] and [log_prob(1)] is [log (1/2)]. *)
Theorem fit_empirical_distribution (self : C.t) (X : itensor) :
  let K := length (C.logits self) in
  let self' := snd (C.fit self X) in
  (X <> [] -> Forall (in_range K) X ->
     fst (C.fit self X) = Ok tt
     /\ C.logits self' = tlog (map Fin (empirical X K))
     /\ texp (C.logits self') = map Fin (empirical X K)
     /\ Rsum (empirical X K) = 1
     /\ C.log_prob self' (support K) = Ok (C.logits self'))
  /\ (K = 3%nat -> X = [0; 0; 1; 1; 1; 2]%Z ->
      fst (C.fit self X) = Ok tt
      /\ texp (C.logits self') = [Fin (2 / 6); Fin (3 / 6); Fin (1 / 6)]
      /\ C.log_prob self' [1%Z] = Ok [Fin (ln (1 / 2))]).
Proof.
  cbv zeta.
  assert (General : X <> [] -> Forall (in_range (length (C.logits self))) X ->
     fst (C.fit self X) = Ok tt
     /\ C.logits (snd (C.fit self X))
        = tlog (map Fin (empirical X (length (C.logits self))))
     /\ texp (C.logits (snd (C.fit self X)))
        = map Fin (empirical X (length (C.logits self)))
     /\ Rsum (empirical X (length (C.logits self))) = 1
     /\ C.log_prob (snd (C.fit self X)) (support (length (C.logits self)))
        = Ok (C.logits (snd (C.fit self X)))).
  { intros Hne HX. rewrite fit_in_range by assumption. cbn [fst snd C.logits].
    pose proof (empirical_nonneg X (length (C.logits self)) Hne) as Hnn.
    pose proof (empirical_sum X (length (C.logits self)) Hne HX) as Hsum.
    repeat split; try assumption.
    - apply texp_tlog_nonneg. exact Hnn.
    - unfold C.log_prob, Categorical_log_prob. cbn [C.logits].
      rewrite Categorical_logits_normalised by assumption.
      pose proof (gather_support
                    (tlog (map Fin (empirical X (length (C.logits self))))))
        as G.
      replace (length (tlog (map Fin (empirical X (length (C.logits self))))))
        with (length (C.logits self)) in G; [exact G|].
      unfold tlog, empirical. rewrite !length_map, length_seq. reflexivity. }
  split; [exact General|].
  intros HK HX.
  assert (Hne : X <> []) by (rewrite HX; discriminate).
  assert (Hin : Forall (in_range (length (C.logits self))) X).
  { rewrite HK, HX. repeat constructor; unfold in_range; simpl; lia. }
  destruct (General Hne Hin) as [Hok [Hlog [Hexp [Hsum _]]]].
  split; [exact Hok|]. rewrite HK, HX, empirical_example in *.
  split; [exact Hexp|].
  unfold C.log_prob, Categorical_log_prob. rewrite Hlog.
  rewrite (Categorical_logits_normalised [2 / 6; 3 / 6; 1 / 6]).
  - cbn [map tlog]. rewrite gather_second, flog_Fin_pos by lra.
    replace (3 / 6) with (1 / 2) by lra. reflexivity.
  - repeat constructor; lra.
  - exact Hsum.
Qed.

Lemma fit_empirical_distribution_witness :
  let self := C.mk [Fin 0; Fin 0; Fin 0] in
  let self' := snd (C.fit self [0; 0; 1; 1; 1; 2]%Z) in
  texp (C.logits self') = [Fin (2 / 6); Fin (3 / 6); Fin (1 / 6)]
  /\ C.log_prob self' [1%Z] = Ok [Fin (ln (1 / 2))].
Proof.
  cbv zeta.
  exact (proj2 (proj2 (fit_empirical_distribution
                         (C.mk [Fin 0; Fin 0; Fin 0])
                         [0; 0; 1; 1; 1; 2]%Z) eq_refl eq_refl)).
Defined.

(** ** Fitting the diagonal normal model *)

(** Sample mean and sample variance (denominator [N - 1]) of a list of
    reals. *)
Definition avg (c : list R) : R := Rsum c / INR (length c).

Definition sample_variance (c : list R) : R :=
  Rsum (map (fun x => (x - avg c) * (x - avg c)) c) / INR (length c - 1).

(** The variance with denominator [N]. *)
Definition population_variance (c : list R) : R :=
  Rsum (map (fun x => (x - avg c) * (x - avg c)) c) / INR (length c).

Definition column_R (rows : list (list R)) (j : nat) : list R :=
  map (fun r => nth j r 0) rows.

Lemma mean_Fin (c : list R) : c <> [] -> mean (map Fin c) = Fin (avg c).
Proof.
  intros Hne. unfold mean, avg. rewrite tsum_Fin, length_map.
  apply fdiv_Fin.
  assert (0 < INR (length c)); [|lra].
  apply lt_0_INR. destruct c; [congruence|simpl; lia].
Qed.

Lemma sq_dev_Fin (mu : R) (c : list R) :
  map (sq_dev (Fin mu)) (map Fin c)
  = map Fin (map (fun x => (x - mu) * (x - mu)) c).
Proof. rewrite !map_map. reflexivity. Qed.

Lemma Rsum_squares_nonneg (mu : R) (c : list R) :
  0 <= Rsum (map (fun x => (x - mu) * (x - mu)) c).
Proof.
  apply Rsum_nonneg. apply Forall_forall. intros y Hy.
  apply in_map_iff in Hy. destruct Hy as [x [<- _]].
  exact (Rle_0_sqr (x - mu)).
Qed.

Lemma sample_variance_nonneg (c : list R) :
  (2 <= length c)%nat -> 0 <= sample_variance c.
Proof.
  intros Hc. unfold sample_variance.
  assert (0 < INR (length c - 1)) by (apply lt_0_INR; lia).
  apply Rmult_le_pos; [apply Rsum_squares_nonneg|].
  apply Rlt_le, Rinv_0_lt_compat. assumption.
Qed.

Lemma std_Fin (c : list R) :
  (2 <= length c)%nat -> std (map Fin c) = Fin (sqrt (sample_variance c)).
Proof.
  intros Hc. unfold std.
  rewrite mean_Fin by (destruct c; [simpl in Hc; lia|discriminate]).
  rewrite sq_dev_Fin, tsum_Fin, length_map.
  assert (0 < INR (length c - 1)) by (apply lt_0_INR; lia).
  rewrite fdiv_Fin by lra.
  apply fsqrt_Fin_nonneg. apply sample_variance_nonneg. exact Hc.
Qed.

Lemma std_pow2_Fin (c : list R) :
  (2 <= length c)%nat ->
  fmul (std (map Fin c)) (std (map Fin c)) = Fin (sample_variance c).
Proof.
  intros Hc. rewrite std_Fin by exact Hc. simpl. f_equal.
  apply sqrt_sqrt. apply sample_variance_nonneg. exact Hc.
Qed.

Lemma column_Fin (n_cols : nat) (obs : list (list R)) (j : nat) :
  Forall (fun r => length r = n_cols) obs -> (j < n_cols)%nat ->
  column (mkbatch n_cols (map (map Fin) obs)) j = map Fin (column_R obs j).
Proof.
  intros Hwf Hj. unfold column, column_R. cbn [rows].
  rewrite !map_map. apply map_ext_in. intros r Hr.
  rewrite Forall_forall in Hwf. specialize (Hwf r Hr).
  rewrite (nth_indep _ NaN (Fin 0)) by (rewrite length_map; lia).
  apply (map_nth Fin).
Qed.

(** What [fit] stores for a batch of at least two finite observations. *)
Lemma fit_finite_batch (self : D.t) (n_cols : nat) (obs : list (list R)) :
  (2 <= length obs)%nat -> Forall (fun r => length r = n_cols) obs ->
  D.fit self (mkbatch n_cols (map (map Fin) obs))
  = (Ok tt,
     D.mk (map (fun j => Fin (avg (column_R obs j))) (seq 0 n_cols))
          (map (fun j => Fin (sample_variance (column_R obs j)))
               (seq 0 n_cols))).
Proof.
  intros HN Hwf. unfold D.fit. f_equal.
  assert (Hlen : forall j, length (column_R obs j) = length obs).
  { intros j. unfold column_R. apply length_map. }
  f_equal.
  - unfold mean0. cbn [dim]. apply map_ext_in. intros j Hj.
    apply in_seq in Hj. rewrite column_Fin by (try exact Hwf; lia).
    apply mean_Fin. intros E. specialize (Hlen j). rewrite E in Hlen.
    simpl in Hlen. lia.
  - unfold tpow2, std0. cbn [dim]. rewrite map_map.
    apply map_ext_in. intros j Hj.
    apply in_seq in Hj. rewrite column_Fin by (try exact Hwf; lia).
    apply std_pow2_Fin. rewrite Hlen. exact HN.
Qed.

Lemma moments_example :
  avg [1; 2; 3] = 2
  /\ sample_variance [1; 2; 3] = 1
  /\ population_variance [1; 2; 3] = 2 / 3.
Proof.
  assert (Havg : avg [1; 2; 3] = 2).
  { unfold avg. cbn [Rsum fold_right length]. rewrite INR_IZR_INZ. cbn. lra. }
  unfold sample_variance, population_variance. rewrite Havg.
  cbn [Rsum fold_right length map Nat.sub]. rewrite !INR_IZR_INZ. cbn.
  repeat split; lra.
Qed.

Lemma fit_example (self : D.t) :
  D.fit self (mkbatch 1 [[Fin 1]; [Fin 2]; [Fin 3]])
  = (Ok tt, D.mk [Fin 2] [Fin 1]).
Proof.
  change [[Fin 1]; [Fin 2]; [Fin 3]] with (map (map Fin) [[1]; [2]; [3]]).
  rewrite fit_finite_batch;
    [|simpl; lia | repeat constructor].
  cbn [seq map column_R nth].
  destruct moments_example as [-> [-> _]]. reflexivity.
Qed.

(** C2, as stated, fails: on the samples [[1.0, 2.0, 3.0]] the variance
    stored by [fit] is [1], not the population variance [2/3]. *)
Lemma fit_variance_is_not_population :
  let self' :=
    snd (D.fit (D.mk [Fin 0] [Fin 1])
               (mkbatch 1 [[Fin 1]; [Fin 2]; [Fin 3]])) in
  D.means self' = [Fin 2]
  /\ D.covs self' = [Fin 1]
  /\ population_variance [1; 2; 3] = 2 / 3
  /\ D.covs self' <> [Fin (population_variance [1; 2; 3])].
Proof.
  cbv zeta. rewrite fit_example. cbn [snd D.means D.covs].
  destruct moments_example as [_ [_ Hpop]]. rewrite Hpop.
  repeat split. intros H. injection H as H. lra.
Qed.

(** C2, amended. [fit] on a batch of at least two finite observations sets
    [means] to the per-dimension sample mean and [covs] to the per-dimension
    sample variance with Bessel's correction (denominator [N - 1], the
    default of [Tensor.std]); on the samples [[1.0, 2.0, 3.0]] it yields mean
    [2] and variance [1]. *)
Theorem fit_sample_moments
  (self : D.t) (n_cols : nat) (obs : list (list R)) :
  let X := mkbatch n_cols (map (map Fin) obs) in
  let self' := snd (D.fit self X) in
  ((2 <= length obs)%nat -> Forall (fun r => length r = n_cols) obs ->
     fst (D.fit self X) = Ok tt
     /\ D.means self'
        = map (fun j => Fin (avg (column_R obs j))) (seq 0 n_cols)
     /\ D.covs self'
        = map (fun j => Fin (sample_variance (column_R obs j)))
              (seq 0 n_cols))
  /\ (n_cols = 1%nat -> obs = [[1]; [2]; [3]] ->
      D.means self' = [Fin 2] /\ D.covs self' = [Fin 1]).
Proof.
  cbv zeta. split.
  - intros HN Hwf. rewrite fit_finite_batch by assumption.
    repeat split.
  - intros -> ->.
    change (map (map Fin) [[1]; [2]; [3]])
      with [[Fin 1]; [Fin 2]; [Fin 3]].
    rewrite fit_example. split; reflexivity.
Qed.

Lemma fit_sample_moments_witness :
  let self' :=
    snd (D.fit (D.mk [Fin 0; Fin 0] [Fin 1; Fin 1])
               (mkbatch 2 (map (map Fin) [[1; 5]; [3; 5]]))) in
  D.means self'
  = map (fun j => Fin (avg (column_R [[1; 5]; [3; 5]] j))) (seq 0 2)
  /\ D.covs self'
     = map (fun j => Fin (sample_variance (column_R [[1; 5]; [3; 5]] j)))
           (seq 0 2).
Proof.
  cbv zeta.
  refine (proj2 (proj1 (fit_sample_moments
                          (D.mk [Fin 0; Fin 0] [Fin 1; Fin 1]) 2
                          [[1; 5]; [3; 5]]) _ _)).
  - simpl. lia.
  - repeat constructor.
Defined.

(** ** Atomicity of the operations *)

(** C3, as stated, fails: [DiagNormalModel.set_parameters] given a sequence
    of one tensor raises [IndexError] at [params[1]] after [means] has been
    assigned; and [DiagNormalModel.init_params_random] on a [covs] that
    refuses the in-place write raises after [means] has been redrawn. *)
Lemma set_parameters_partial_update :
  let d := D.mk [Fin 5] [Fin 1] in
  let r := D.set_parameters d (PyList [[Fin 7]]) in
  let r' := @D.init_params_random_in_place Reference.torch d true false
                                           0%nat in
  fst (fst r) = Raise IndexError
  /\ snd (fst r) = D.mk [Fin 7] [Fin 1]
  /\ D.means (snd (fst r)) <> D.means d
  /\ fst (fst r') = Raise RuntimeError
  /\ snd (fst r') = D.mk [Fin 0] [Fin 1]
  /\ D.means (snd (fst r')) <> D.means d.
Proof.
  cbv zeta. cbn.
  repeat split; intros H; injection H as H; lra.
Qed.

Lemma categorical_fit_atomic (c : C.t) (X : itensor) (e : exn) :
  fst (C.fit c X) = Raise e -> snd (C.fit c X) = c.
Proof.
  unfold C.fit. destruct (bincount X (length (C.logits c))); cbn.
  - discriminate.
  - reflexivity.
Qed.

Lemma categorical_set_parameters_atomic (c : C.t) (params : pyobj) (e : exn) :
  fst (C.set_parameters c params) = Raise e ->
  snd (C.set_parameters c params) = c.
Proof.
  unfold C.set_parameters. destruct (getitem params 0); cbn.
  - discriminate.
  - reflexivity.
Qed.

Lemma diag_normal_set_parameters_cases (d : D.t) (params : pyobj) :
  (exists x y rest,
      params = PyList (x :: y :: rest)
      /\ D.set_parameters d params = (Ok tt, D.mk x y, [params]))
  \/ (exists x,
         params = PyList [x]
         /\ D.set_parameters d params
            = (Raise IndexError, D.mk x (D.covs d), [params]))
  \/ (exists e,
         getitem params 0 = Raise e
         /\ D.set_parameters d params = (Raise e, d, [params])).
Proof.
  destruct params as [[|x [|y rest]]|].
  - right. right. exists IndexError. split; reflexivity.
  - right. left. exists x. split; reflexivity.
  - left. exists x, y, rest. split; reflexivity.
  - right. right. exists TypeError. split; reflexivity.
Qed.

Lemma init_params_random_in_place_cases
  {T : Torch} (d : D.t) (means_writable covs_writable : bool)
  (g : generator) :
  (means_writable = true /\ covs_writable = true
   /\ D.init_params_random_in_place d means_writable covs_writable g
      = D.init_params_random d g)
  \/ (means_writable = true /\ covs_writable = false
      /\ D.init_params_random_in_place d means_writable covs_writable g
         = (Raise RuntimeError, D.mk (D.normal_ g (D.means d)) (D.covs d),
            advance g (length (D.means d))))
  \/ (means_writable = false
      /\ D.init_params_random_in_place d means_writable covs_writable g
         = (Raise RuntimeError, d, g)).
Proof.
  destruct means_writable, covs_writable; cbn.
  - left. repeat split.
  - right. left. repeat split.
  - right. right. repeat split.
  - right. right. repeat split.
Qed.

(** C3, amended. [fit] and [set_parameters] of [CategoricalModel] either
    succeed or fail with the model unchanged.  [DiagNormalModel.set_parameters]
    leaves the model unchanged when [params[0]] fails (empty sequence, object
    without indexing); given exactly one tensor it assigns [means] and then
    fails at [params[1]], [covs] being unchanged; given two or more it
    assigns both.  [DiagNormalModel.init_params_random] writes [means] in
    place and then [covs]: when the write to [means] is refused the model is
    unchanged, and when the write to [covs] is refused after that, [means]
    stays redrawn and [covs] is unchanged. *)
Theorem operations_atomic_but_short_set_parameters
  {T : Torch} (c : C.t) (d : D.t) :
  (forall X e, fst (C.fit c X) = Raise e -> snd (C.fit c X) = c)
  /\ (forall params e,
         fst (C.set_parameters c params) = Raise e ->
         snd (C.set_parameters c params) = c)
  /\ (forall params e,
         getitem params 0 = Raise e ->
         D.set_parameters d params = (Raise e, d, [params]))
  /\ (forall x,
         D.set_parameters d (PyList [x])
         = (Raise IndexError, D.mk x (D.covs d), [PyList [x]]))
  /\ (forall x y rest,
         D.set_parameters d (PyList (x :: y :: rest))
         = (Ok tt, D.mk x y, [PyList (x :: y :: rest)]))
  /\ (forall params e,
         fst (fst (D.set_parameters d params)) = Raise e ->
         snd (fst (D.set_parameters d params)) = d
         \/ exists x, params = PyList [x]
                      /\ snd (fst (D.set_parameters d params))
                         = D.mk x (D.covs d))
  /\ (forall g,
         D.init_params_random_in_place d true true g
         = D.init_params_random d g)
  /\ (forall covs_writable g,
         D.init_params_random_in_place d false covs_writable g
         = (Raise RuntimeError, d, g))
  /\ (forall g,
         D.init_params_random_in_place d true false g
         = (Raise RuntimeError, D.mk (D.normal_ g (D.means d)) (D.covs d),
            advance g (length (D.means d))))
  /\ (forall means_writable covs_writable g e,
         fst (fst (D.init_params_random_in_place
                     d means_writable covs_writable g)) = Raise e ->
         let d' := snd (fst (D.init_params_random_in_place
                               d means_writable covs_writable g)) in
         D.covs d' = D.covs d
         /\ (d' = d
             \/ (means_writable = true /\ covs_writable = false
                 /\ D.means d' = D.normal_ g (D.means d)))).
Proof.
  split; [apply categorical_fit_atomic|].
  split; [apply categorical_set_parameters_atomic|].
  split.
  { intros params e H. unfold D.set_parameters. rewrite H. reflexivity. }
  split; [reflexivity|]. split; [reflexivity|].
  split.
  { intros params e H.
    destruct (diag_normal_set_parameters_cases d params)
      as [[x [y [rest [-> E]]]] | [[x [-> E]] | [e' [_ E]]]];
      rewrite E in *; cbn in *.
    - discriminate.
    - right. exists x. split; reflexivity.
    - left. reflexivity. }
  split; [reflexivity|]. split; [reflexivity|]. split; [reflexivity|].
  intros mw cw g e H. cbv zeta.
  destruct (init_params_random_in_place_cases d mw cw g)
    as [[-> [-> E]] | [[-> [-> E]] | [-> E]]]; rewrite E in *; cbn in *.
  - discriminate.
  - split; [reflexivity|]. right. repeat split.
  - split; [reflexivity|]. left. reflexivity.
Qed.

(** ** Shape and well-definedness of the parameters *)

Lemma fit_empty_data :
  C.fit (C.mk [Fin 0; Fin 0; Fin 0]) [] = (Ok tt, C.mk [NaN; NaN; NaN]).
Proof.
  assert (B : bincount [] 3 = Ok [0; 0; 0]%nat) by reflexivity.
  unfold C.fit. cbn [C.logits length]. rewrite B. cbv zeta.
  rewrite to_float_Fin, tsum_Fin.
  cbn [map INR Rsum fold_right tdiv_scalar tlog].
  replace (0 + (0 + (0 + 0))) with 0 by lra.
  rewrite fdiv_zero_zero. reflexivity.
Qed.

(** C4, as stated, fails: [fit] on an empty sequence stores NaN logits,
    [fit] on a category index beyond [K-1] lengthens the logits,
    [set_parameters] stores a tensor of any length and content, and for the
    diagonal normal model it stores [means] and [covs] of different
    lengths. *)
Lemma parameters_invariants_broken :
  let c := C.mk [Fin 0; Fin 0; Fin 0] in
  let d := D.mk [Fin 0] [Fin 1] in
  let d' := snd (fst (D.set_parameters d (PyList [[Fin 0]; [Fin 1; Fin 2]]))) in
  C.fit c [] = (Ok tt, C.mk [NaN; NaN; NaN])
  /\ fst (C.fit c [4%Z]) = Ok tt
  /\ length (C.logits (snd (C.fit c [4%Z]))) = 5%nat
  /\ C.set_parameters c (PyList [[NaN]]) = (Ok tt, C.mk [NaN])
  /\ fst (fst (D.set_parameters d (PyList [[Fin 0]; [Fin 1; Fin 2]]))) = Ok tt
  /\ length (D.means d') = 1%nat
  /\ length (D.covs d') = 2%nat.
Proof.
  cbv zeta. split; [exact fit_empty_data|].
  repeat split.
Qed.

Lemma flog_nonneg_not_nan (r : R) : 0 <= r -> ~ is_nan (flog (Fin r)).
Proof.
  intros Hr. simpl. destruct (total_order_T r 0) as [[H|H]|H]; simpl; tauto || lra.
Qed.

Lemma is_finite_not_nan (t : tensor) :
  Forall is_finite t -> Forall (fun x => ~ is_nan x) t.
Proof.
  apply Forall_impl. intros [| | |r]; simpl; tauto.
Qed.

Lemma init_params_random_finite {T : Torch} (c : C.t) (g : generator) :
  Forall is_finite (C.logits (snd (fst (C.init_params_random c g)))).
Proof.
  unfold C.init_params_random. cbn [fst snd C.logits].
  rewrite rand_like_Fin.
  destruct (C.logits c) as [|x l] eqn:E; [constructor|].
  rewrite softmax_Fin by discriminate.
  apply tlog_distribution; [apply softmax_R_pos | apply softmax_R_sum];
    discriminate.
Qed.

Lemma init_params_random_length {T : Torch} (c : C.t) (g : generator) :
  length (C.logits (snd (fst (C.init_params_random c g))))
  = length (C.logits c).
Proof.
  unfold C.init_params_random, C.rand_like, tlog, softmax, tdiv_scalar, texp.
  cbn [fst snd C.logits]. rewrite !length_map, length_seq. reflexivity.
Qed.

Lemma fit_in_range_well_defined (c : C.t) (X : itensor) :
  X <> [] -> Forall (in_range (length (C.logits c))) X ->
  length (C.logits (snd (C.fit c X))) = length (C.logits c)
  /\ Forall (fun x => ~ is_nan x) (C.logits (snd (C.fit c X))).
Proof.
  intros Hne HX. rewrite fit_in_range by assumption. cbn [snd C.logits].
  split.
  - unfold tlog, empirical. rewrite !length_map, length_seq. reflexivity.
  - pose proof (empirical_nonneg X (length (C.logits c)) Hne) as Hnn.
    unfold tlog. rewrite map_map. apply Forall_forall. intros y Hy.
    apply in_map_iff in Hy. destruct Hy as [r [<- Hr]].
    rewrite Forall_forall in Hnn. apply flog_nonneg_not_nan, Hnn, Hr.
Qed.

Lemma fit_length (c : C.t) (X : itensor) :
  fst (C.fit c X) = Ok tt ->
  length (C.logits (snd (C.fit c X)))
  = Nat.max (length (C.logits c)) (Z.to_nat (largest X + 1)).
Proof.
  unfold C.fit, bincount.
  destruct (forallb (fun x => (0 <=? x)%Z) X); cbn; [|discriminate].
  intros _. unfold tlog, tdiv_scalar, to_float.
  rewrite !length_map, length_seq. reflexivity.
Qed.

(** C4, amended. For a [CategoricalModel]: [init_params_random] keeps the
    number [K] of logits and leaves them all finite; [fit] on a non-empty
    sequence of indices in [0 .. K-1] keeps [K] and leaves no NaN (a
    category never observed gets [-inf]); in general a successful [fit]
    leaves [max K (1 + largest index)] logits; [set_parameters] stores the
    first tensor it is given, whatever its length and content.  For a
    [DiagNormalModel]: construction succeeds only for [means] and [covs] of
    one length; [init_params_random] keeps both lengths; [fit] gives both
    the number of columns of the data; [set_parameters] stores the two
    tensors it is given, whatever their lengths. *)
Theorem parameters_shape_preservation
  {T : Torch} (c : C.t) (d : D.t) :
  (forall g,
      length (C.logits (snd (fst (C.init_params_random c g))))
      = length (C.logits c)
      /\ Forall is_finite (C.logits (snd (fst (C.init_params_random c g))))
      /\ Forall (fun x => ~ is_nan x)
                (C.logits (snd (fst (C.init_params_random c g)))))
  /\ (forall X,
         X <> [] -> Forall (in_range (length (C.logits c))) X ->
         length (C.logits (snd (C.fit c X))) = length (C.logits c)
         /\ Forall (fun x => ~ is_nan x) (C.logits (snd (C.fit c X))))
  /\ (forall X,
         fst (C.fit c X) = Ok tt ->
         length (C.logits (snd (C.fit c X)))
         = Nat.max (length (C.logits c)) (Z.to_nat (largest X + 1)))
  /\ (forall x rest,
         C.set_parameters c (PyList (x :: rest)) = (Ok tt, C.mk x))
  /\ (forall m v d0,
         D.__init__ (ATensor m) (ATensor v) = Ok d0 ->
         D.means d0 = m /\ D.covs d0 = v /\ length m = length v)
  /\ (forall g,
         length (D.means (snd (fst (D.init_params_random d g))))
         = length (D.means d)
         /\ length (D.covs (snd (fst (D.init_params_random d g))))
            = length (D.covs d))
  /\ (forall X,
         length (D.means (snd (D.fit d X))) = dim X
         /\ length (D.covs (snd (D.fit d X))) = dim X)
  /\ (forall x y rest,
         snd (fst (D.set_parameters d (PyList (x :: y :: rest)))) = D.mk x y).
Proof.
  repeat split.
  - apply init_params_random_length.
  - apply init_params_random_finite.
  - apply is_finite_not_nan, init_params_random_finite.
  - apply fit_in_range_well_defined; assumption.
  - apply fit_in_range_well_defined; assumption.
  - apply fit_length.
  - unfold D.__init__ in H.
    destruct (Nat.eqb (length m) (length v)); [|discriminate].
    injection H as <-. reflexivity.
  - unfold D.__init__ in H.
    destruct (Nat.eqb (length m) (length v)); [|discriminate].
    injection H as <-. reflexivity.
  - unfold D.__init__ in H.
    destruct (Nat.eqb (length m) (length v)) eqn:E; [|discriminate].
    apply Nat.eqb_eq. exact E.
  - unfold D.init_params_random, D.normal_. cbn [fst snd D.means].
    rewrite length_map, length_seq. reflexivity.
  - unfold D.init_params_random, D.log_normal_. cbn [fst snd D.covs].
    rewrite length_map, length_seq. reflexivity.
  - unfold D.fit, mean0. cbn [snd D.means].
    rewrite length_map, length_seq. reflexivity.
  - unfold D.fit, tpow2, std0. cbn [snd D.covs].
    rewrite !length_map, length_seq. reflexivity.
Qed.

(** ** Coercion of the variances by the absolute value *)

Lemma fabs_idempotent (x : float) : fabs (fabs x) = fabs x.
Proof.
  destruct x; try reflexivity. simpl. rewrite Rabs_Rabsolu. reflexivity.
Qed.

Lemma tabs_idempotent (c : tensor) : tabs (tabs c) = tabs c.
Proof.
  unfold tabs. rewrite map_map. apply map_ext. apply fabs_idempotent.
Qed.

Lemma fabs_not_negative (x : float) : ~ is_negative (fabs x).
Proof.
  destruct x; simpl; try tauto.
  pose proof (Rabs_pos r). lra.
Qed.

Lemma fabs_nonzero_pos (x : float) :
  is_nonzero_finite x -> is_pos_finite (fabs x).
Proof.
  destruct x; simpl; try tauto. apply Rabs_pos_lt.
Qed.

Lemma tabs_nonzero_pos (c : tensor) :
  Forall is_nonzero_finite c -> Forall is_pos_finite (tabs c).
Proof.
  intros H. unfold tabs. apply Forall_forall. intros y Hy.
  apply in_map_iff in Hy. destruct Hy as [x [<- Hx]].
  rewrite Forall_forall in H. apply fabs_nonzero_pos, H, Hx.
Qed.

Lemma nth_map_seq {A : Type} (f : nat -> A) (n i : nat) (d : A) :
  (i < n)%nat -> nth i (map f (seq 0 n)) d = f i.
Proof.
  intros Hi. rewrite (nth_indep _ d (f 0%nat))
    by (rewrite length_map, length_seq; exact Hi).
  rewrite map_nth, seq_nth by exact Hi. reflexivity.
Qed.

Lemma diag_length (c : tensor) : length (diag c) = length c.
Proof. unfold diag. rewrite length_map, length_seq. reflexivity. Qed.

(** Entry [(i, j)] of [diag c]. *)
Lemma diag_entry (c : tensor) (i j : nat) :
  (i < length c)%nat -> (j < length c)%nat ->
  nth j (nth i (diag c) []) NaN
  = if Nat.eqb i j then nth i c NaN else Fin 0.
Proof.
  intros Hi Hj. unfold diag.
  rewrite nth_map_seq by exact Hi. rewrite nth_map_seq by exact Hj.
  reflexivity.
Qed.

(** No entry of the covariance matrix handed to the library is negative. *)
Lemma diag_tabs_not_negative (c : tensor) :
  Forall (Forall (fun x => ~ is_negative x)) (diag (tabs c)).
Proof.
  unfold diag. apply Forall_forall. intros row Hrow.
  apply in_map_iff in Hrow. destruct Hrow as [i [<- Hi]].
  apply Forall_forall. intros x Hx.
  apply in_map_iff in Hx. destruct Hx as [j [<- Hj]].
  destruct (Nat.eqb i j).
  - apply in_seq in Hi. unfold tabs in *.
    rewrite (nth_indep _ NaN (fabs NaN)) by lia.
    rewrite map_nth. apply fabs_not_negative.
  - simpl. lra.
Qed.

Lemma reference_diagonal_diag (c : tensor) :
  Reference.diagonal (diag c) = c.
Proof.
  unfold Reference.diagonal. rewrite diag_length.
  apply (nth_ext _ _ NaN NaN).
  - rewrite length_map, length_seq. reflexivity.
  - intros i Hi. rewrite length_map, length_seq in Hi.
    rewrite nth_map_seq by exact Hi.
    rewrite diag_entry by exact Hi. rewrite Nat.eqb_refl. reflexivity.
Qed.

Lemma reference_finite_values_pos (c : tensor) :
  Forall is_pos_finite c ->
  exists var,
    Reference.finite_values c = Some var
    /\ Reference.all_positive var = true.
Proof.
  induction 1 as [|x c Hx _ [var [Hv Hp]]].
  - exists []. split; reflexivity.
  - destruct x as [| | |r]; simpl in Hx; try contradiction.
    exists (r :: var). cbn [Reference.finite_values]. rewrite Hv.
    split; [reflexivity|].
    unfold Reference.all_positive in *. cbn [forallb]. rewrite Hp.
    destruct (Rlt_dec 0 r); [reflexivity|contradiction].
Qed.

Lemma reference_accepts_positive_definite :
  accepts_positive_definite Reference.torch.
Proof.
  intros loc c value Hloc Hval Hc.
  destruct (reference_finite_values_pos c Hc) as [var [Hv Hp]].
  assert (Hacc : Reference.accepted loc (diag c) = Some var).
  { unfold Reference.accepted.
    rewrite diag_length, Hloc, Nat.eqb_refl, reference_diagonal_diag, Hv, Hp.
    reflexivity. }
  split.
  - cbn [mvn_log_prob Reference.torch]. unfold Reference.log_prob.
    rewrite Hacc, diag_length, Hval, Nat.eqb_refl.
    destruct (Reference.finite_values loc), (Reference.finite_values value);
      exact I.
  - intros g n. cbn [mvn_sample Reference.torch]. unfold Reference.draw.
    rewrite Hacc. exact I.
Qed.

Lemma reference_refuses_zero_variance (loc : tensor) (r : R) :
  Reference.accepted loc (diag (tabs [Fin r; Fin 0])) = None.
Proof.
  unfold Reference.accepted. rewrite reference_diagonal_diag.
  destruct (Nat.eqb (length loc) (length (diag (tabs [Fin r; Fin 0]))));
    [|reflexivity].
  cbn [tabs map fabs Reference.finite_values Reference.all_positive forallb].
  rewrite Rabs_R0.
  destruct (Rlt_dec 0 (Rabs r)), (Rlt_dec 0 0); try lra; reflexivity.
Qed.

(** C8, as stated, fails: with [covs = [-4, 0]], which has a negative
    entry, the matrix [diag(|covs|)] has a zero on its diagonal and is
    singular; a library that accepts every positive definite matrix and
    refuses the others makes [log_prob] and [sample] raise. *)
Lemma zero_variance_is_refused :
  let self := D.mk [Fin 0; Fin 1] [Fin (-4); Fin 0] in
  accepts_positive_definite Reference.torch
  /\ Exists is_negative (D.covs self)
  /\ @D.log_prob Reference.torch self [Fin 1; Fin 2]
     = Raise (ValueError "invalid covariance_matrix")
  /\ fst (@D.sample Reference.torch self None 0%nat)
     = Raise (ValueError "invalid covariance_matrix").
Proof.
  cbv zeta. split; [exact reference_accepts_positive_definite|].
  split; [apply Exists_cons_hd; simpl; lra|].
  unfold D.log_prob, D.sample.
  cbn [D.means D.covs fst mvn_log_prob mvn_sample Reference.torch].
  unfold Reference.log_prob, Reference.draw.
  rewrite !reference_refuses_zero_variance. split; reflexivity.
Qed.

(** C8, amended. [sample] and [log_prob] of a [DiagNormalModel] are those
    of [MultivariateNormal(means, diag(|covs|))]: the sign of an entry of
    [covs] has no effect and no entry of the covariance matrix handed to the
    library is negative.  For [covs] whose entries are all finite and other
    than zero, negative ones included, with [means] of the same length and a
    value of that length, both operations succeed whenever the library
    accepts positive definite diagonal matrices. *)
Theorem diag_normal_abs_coercion
  {T : Torch} (self : D.t) (value : tensor) (shape : option nat)
  (g : generator) :
  D.log_prob self value
  = mvn_log_prob (D.means self) (diag (tabs (D.covs self))) value
  /\ fst (D.sample self shape g)
     = mvn_sample g (D.means self) (diag (tabs (D.covs self)))
                  (match shape with Some n => n | None => 1%nat end)
  /\ D.log_prob self value
     = D.log_prob (D.mk (D.means self) (tabs (D.covs self))) value
  /\ D.sample self shape g
     = D.sample (D.mk (D.means self) (tabs (D.covs self))) shape g
  /\ Forall (Forall (fun x => ~ is_negative x)) (diag (tabs (D.covs self)))
  /\ (accepts_positive_definite T ->
      length (D.means self) = length (D.covs self) ->
      length value = length (D.covs self) ->
      Forall is_nonzero_finite (D.covs self) ->
      is_ok (D.log_prob self value) /\ is_ok (fst (D.sample self shape g))).
Proof.
  split; [reflexivity|]. split; [reflexivity|].
  split; [unfold D.log_prob; cbn [D.means D.covs];
          rewrite tabs_idempotent; reflexivity|].
  split; [unfold D.sample; cbn [D.means D.covs];
          rewrite tabs_idempotent; reflexivity|].
  split; [apply diag_tabs_not_negative|].
  intros Hlib Hm Hv Hc.
  assert (Hlen : length (tabs (D.covs self)) = length (D.covs self))
    by apply length_map.
  destruct (Hlib (D.means self) (tabs (D.covs self)) value) as [Hlp Hs].
  - rewrite Hlen. exact Hm.
  - rewrite Hlen. exact Hv.
  - apply tabs_nonzero_pos. exact Hc.
  - split; [exact Hlp|]. unfold D.sample. cbn [fst]. apply Hs.
Qed.

Lemma diag_normal_abs_coercion_witness :
  let self := D.mk [Fin 0; Fin 1] [Fin (-4); Fin 9] in
  is_ok (@D.log_prob Reference.torch self [Fin 1; Fin 2])
  /\ is_ok (fst (@D.sample Reference.torch self None 0%nat)).
Proof.
  cbv zeta.
  refine (proj2 (proj2 (proj2 (proj2 (proj2
            (@diag_normal_abs_coercion Reference.torch
               (D.mk [Fin 0; Fin 1] [Fin (-4); Fin 9])
               [Fin 1; Fin 2] None 0%nat)))))
            reference_accepts_positive_definite eq_refl eq_refl _).
  repeat constructor; simpl; lra.
Defined.

(** * Further properties of the two models *)

(** ** Construction of the diagonal normal model *)

(** X1. [DiagNormalModel.__init__] succeeds exactly when both arguments are
    tensors of one shape, and then stores them as they are; the three checks
    are made in the order of the source, so that a [means] that is no tensor
    is reported whatever [covs] is. *)
Theorem diag_normal_init_characterisation (a b : pyarg) :
  (is_ok (D.__init__ a b) <->
   exists m v, a = ATensor m /\ b = ATensor v /\ length m = length v)
  /\ (forall m v,
         a = ATensor m -> b = ATensor v -> length m = length v ->
         D.__init__ a b = Ok (D.mk m v))
  /\ (a = AOther ->
      D.__init__ a b = Raise (ValueError "Means must be a tensor."))
  /\ (forall m,
         a = ATensor m -> b = AOther ->
         D.__init__ a b = Raise (ValueError "Covs must be a tensor."))
  /\ (forall m v,
         a = ATensor m -> b = ATensor v -> length m <> length v ->
         D.__init__ a b
         = Raise (ValueError "Means and covs must have same shape!")).
Proof.
  split; [|repeat split].
  - destruct a as [m|], b as [v|]; cbn.
    + destruct (Nat.eqb (length m) (length v)) eqn:E; cbn.
      * split; [|tauto]. intros _. exists m, v.
        repeat split. apply Nat.eqb_eq. exact E.
      * split; [tauto|]. intros [m' [v' [Hm [Hv Hl]]]].
        injection Hm as <-. injection Hv as <-.
        apply Nat.eqb_neq in E. contradiction.
    + split; [tauto|]. intros [m' [v' [_ [Hv _]]]]. discriminate.
    + split; [tauto|]. intros [m' [v' [Hm _]]]. discriminate.
    + split; [tauto|]. intros [m' [v' [Hm _]]]. discriminate.
  - intros m v -> -> Hl. cbn. apply Nat.eqb_eq in Hl. rewrite Hl. reflexivity.
  - intros ->. reflexivity.
  - intros m -> ->. reflexivity.
  - intros m v -> -> Hl. cbn. apply Nat.eqb_neq in Hl. rewrite Hl.
    reflexivity.
Qed.

(** ** Construction of the categorical model from probabilities *)

Lemma flog_nan_iff (x : float) :
  is_nan (flog x) <-> is_nan x \/ is_negative x.
Proof.
  destruct x as [| | |r]; simpl; try tauto.
  destruct (total_order_T r 0) as [[H|H]|H]; simpl; split; try tauto;
    intros [F|F]; try contradiction; lra.
Qed.

(** X2. [CategoricalModel(probs=p)] validates nothing: it always succeeds,
    keeps the length, and the stored logits contain a NaN exactly when [p]
    contains a NaN or a negative entry (a zero gives [-inf], not NaN). *)
Theorem categorical_init_probs_nan (p : tensor) :
  exists m,
    C.__init__ (Some p) None = Ok m
    /\ length (C.logits m) = length p
    /\ (Exists is_nan (C.logits m)
        <-> Exists (fun x => is_nan x \/ is_negative x) p).
Proof.
  exists (C.mk (tlog p)). split; [reflexivity|]. cbn [C.logits]. split.
  - apply length_map.
  - unfold tlog. rewrite !Exists_exists. split.
    + intros [y [Hy Hn]]. apply in_map_iff in Hy.
      destruct Hy as [x [<- Hx]]. exists x. split; [exact Hx|].
      apply flog_nan_iff. exact Hn.
    + intros [x [Hx Hn]]. exists (flog x). split.
      * apply in_map. exact Hx.
      * apply flog_nan_iff. exact Hn.
Qed.

(** ** [log_prob] of the categorical model *)

Lemma Categorical_logits_length (l : tensor) :
  length (Categorical_logits l) = length l.
Proof. apply length_map. Qed.


Lemma Rsum_ge_elem (q : list R) (x : R) :
  Forall (fun y => 0 <= y) q -> In x q -> x <= Rsum q.
Proof.
  induction 1 as [|y q Hy Hq IH]; intros Hin; [contradiction|].
  pose proof (Rsum_nonneg q Hq) as Hs. cbn [Rsum fold_right].
  fold (Rsum q). destruct Hin as [->|Hin].
  - lra.
  - specialize (IH Hin). lra.
Qed.

Lemma tlog_exp (l : list R) : tlog (map Fin (map exp l)) = map Fin l.
Proof.
  rewrite tlog_pos by apply Forall_exp_pos. rewrite !map_map.
  apply map_ext. intros x. rewrite ln_exp. reflexivity.
Qed.

(** The normalised logits of a finite, non-empty tensor of logits. *)
Lemma Categorical_logits_finite (l : list R) :
  l <> [] ->
  Categorical_logits (map Fin l)
  = tlog (map Fin (normalise_R (map exp l))).
Proof.
  intros Hne. rewrite <- (tlog_exp l) at 1.
  apply Categorical_logits_normalise; [|apply Forall_exp_pos].
  destruct l; [congruence|discriminate].
Qed.

Lemma normalise_R_le_1 (q : list R) (x : R) :
  q <> [] -> Forall (fun y => 0 < y) q -> In x (normalise_R q) ->
  0 < x <= 1.
Proof.
  intros Hne Hq Hx. pose proof (normalise_R_pos q Hne Hq) as Hpos.
  rewrite Forall_forall in Hpos. split; [apply Hpos; exact Hx|].
  rewrite <- (normalise_R_sum q Hne Hq).
  apply Rsum_ge_elem; [|exact Hx].
  apply Forall_pos_nonneg, normalise_R_pos; assumption.
Qed.

(** X4. For finite logits over at least one category, [log_prob] over the
    whole support returns finite values that are all at most zero and whose
    exponentials sum to one: whatever the logits, the model is a normalised
    distribution. *)
Theorem categorical_log_prob_is_log_distribution (l : list R) :
  l <> [] ->
  exists lp,
    C.log_prob (C.mk (map Fin l)) (support (length l)) = Ok lp
    /\ length lp = length l
    /\ tsum (texp lp) = Fin 1
    /\ Forall (fun x => exists r, x = Fin r /\ r <= 0) lp.
Proof.
  intros Hne.
  assert (Hne' : map exp l <> []) by (destruct l; [congruence|discriminate]).
  exists (Categorical_logits (map Fin l)).
  unfold C.log_prob, Categorical_log_prob. cbn [C.logits].
  assert (Hlen : length (Categorical_logits (map Fin l)) = length l).
  { rewrite Categorical_logits_length. apply length_map. }
  split; [rewrite <- Hlen; apply gather_support|].
  split; [exact Hlen|].
  rewrite Categorical_logits_finite by exact Hne. split.
  - apply tlog_distribution;
      [apply normalise_R_pos | apply normalise_R_sum];
      (exact Hne' || apply Forall_exp_pos).
  - rewrite tlog_pos
      by (apply normalise_R_pos; [exact Hne' | apply Forall_exp_pos]).
    apply Forall_forall. intros y Hy. apply in_map_iff in Hy.
    destruct Hy as [x [<- Hx]]. exists (ln x). split; [reflexivity|].
    destruct (normalise_R_le_1 (map exp l) x Hne' (Forall_exp_pos l) Hx)
      as [H0 H1].
    rewrite <- ln_1. destruct (Rle_lt_or_eq_dec _ _ H1) as [Hlt| ->].
    + apply Rlt_le, ln_increasing; assumption.
    + lra.
Qed.

Lemma categorical_log_prob_is_log_distribution_witness :
  exists lp,
    C.log_prob (C.mk (map Fin [3; -1])) (support 2) = Ok lp
    /\ length lp = 2%nat
    /\ tsum (texp lp) = Fin 1
    /\ Forall (fun x => exists r, x = Fin r /\ r <= 0) lp.
Proof.
  apply (categorical_log_prob_is_log_distribution [3; -1]). discriminate.
Defined.

(** X5. Adding one constant to every logit changes nothing: for finite
    logits [l] and any real [a], the models with logits [l] and [l + a]
    give the same [log_prob] on every input. *)
Theorem categorical_log_prob_shift_invariant
  (l : list R) (a : R) (value : itensor) :
  C.log_prob (C.mk (map Fin (map (fun x => x + a) l))) value
  = C.log_prob (C.mk (map Fin l)) value.
Proof.
  unfold C.log_prob, Categorical_log_prob. cbn [C.logits]. f_equal.
  destruct l as [|x l'] eqn:E; [reflexivity|]. rewrite <- E.
  assert (Hne : l <> []) by (rewrite E; discriminate).
  assert (Hne' : map exp l <> []) by (rewrite E; discriminate).
  assert (Hne'' : map (fun x => x + a) l <> []) by (rewrite E; discriminate).
  rewrite !Categorical_logits_finite by assumption. do 2 f_equal.
  rewrite map_map.
  rewrite (map_ext (fun x => exp (x + a)) (fun x => exp a * exp x))
    by (intros y; rewrite exp_plus; lra).
  rewrite <- (map_map exp (fun y => exp a * y)).
  apply normalise_R_scale;
    [apply exp_pos | exact Hne' | apply Forall_exp_pos].
Qed.

(** ** Edge cases and algebra of [CategoricalModel.fit] *)

Lemma forallb_nonneg_iff (X : itensor) :
  forallb (fun x => (0 <=? x)%Z) X = true <-> Forall (fun x => (0 <= x)%Z) X.
Proof.
  rewrite forallb_forall, Forall_forall. split; intros H x Hx.
  - apply Z.leb_le, H, Hx.
  - apply Z.leb_le, H, Hx.
Qed.

(** X6. [CategoricalModel.fit] succeeds exactly when no index is negative;
    with a negative index the library refuses the data, the error reaches
    the caller and the logits are left as they were. *)
Theorem categorical_fit_fails_on_negative (c : C.t) (X : itensor) :
  (fst (C.fit c X) = Ok tt <-> Forall (fun x => (0 <= x)%Z) X)
  /\ (Exists (fun x => (x < 0)%Z) X -> C.fit c X = (Raise RuntimeError, c)).
Proof.
  unfold C.fit, bincount.
  destruct (forallb (fun x => (0 <=? x)%Z) X) eqn:E; cbn.
  - apply forallb_nonneg_iff in E. split; [tauto|].
    intros Hex. apply Exists_exists in Hex. destruct Hex as [x [Hx Hneg]].
    rewrite Forall_forall in E. specialize (E x Hx). lia.
  - split; [|reflexivity]. split; [discriminate|].
    intros H. apply forallb_nonneg_iff in H. congruence.
Qed.

Lemma Rsum_zeros (n : nat) : Rsum (repeat 0 n) = 0.
Proof.
  induction n as [|n IH]; [reflexivity|].
  cbn [repeat Rsum fold_right]. fold (Rsum (repeat 0 n)). rewrite IH. lra.
Qed.

(** X7. [fit] on an empty sequence succeeds and stores NaN in every one of
    the [K] logits: all counts are zero and [0 / 0] is NaN. *)
Theorem categorical_fit_empty (c : C.t) :
  C.fit c [] = (Ok tt, C.mk (repeat NaN (length (C.logits c)))).
Proof.
  unfold C.fit, bincount. cbn [forallb largest fold_right].
  replace (Nat.max (length (C.logits c)) (Z.to_nat (-1 + 1)))
    with (length (C.logits c)) by (cbn; lia).
  cbv zeta. cbn [count_occ]. rewrite map_const, length_seq.
  rewrite to_float_Fin, tsum_Fin, map_repeat. change (INR 0) with 0.
  rewrite Rsum_zeros.
  unfold tdiv_scalar, tlog. rewrite !map_repeat, fdiv_zero_zero.
  reflexivity.
Qed.

Lemma largest_Permutation (X X' : itensor) :
  Permutation X X' -> largest X = largest X'.
Proof.
  unfold largest. induction 1 as [|x l l' _ IH|x y l|l l' l'' _ IH1 _ IH2];
    cbn [fold_right].
  - reflexivity.
  - rewrite IH. reflexivity.
  - rewrite !Z.max_assoc, (Z.max_comm y x). reflexivity.
  - rewrite IH1. exact IH2.
Qed.

Lemma bincount_Permutation (X X' : itensor) (n : nat) :
  Permutation X X' -> bincount X n = bincount X' n.
Proof.
  intros HP. unfold bincount.
  assert (Hb : forallb (fun x => (0 <=? x)%Z) X
               = forallb (fun x => (0 <=? x)%Z) X').
  { apply eq_true_iff_eq. rewrite !forallb_forall. split; intros H x Hx.
    - apply H. eapply Permutation_in; [apply Permutation_sym|]; eassumption.
    - apply H. eapply Permutation_in; eassumption. }
  rewrite Hb, (largest_Permutation X X' HP).
  destruct (forallb (fun x => (0 <=? x)%Z) X'); [|reflexivity].
  f_equal. apply map_ext. intros i.
  apply (proj1 (Permutation_count_occ Z.eq_dec X X') HP).
Qed.

(** X8. [fit] depends on the data through the counts only: observing the
    same indices in another order gives the same outcome and the same
    logits. *)
Theorem categorical_fit_order_irrelevant (c : C.t) (X X' : itensor) :
  Permutation X X' -> C.fit c X = C.fit c X'.
Proof.
  intros HP. unfold C.fit.
  rewrite (bincount_Permutation X X' _ HP). reflexivity.
Qed.

Lemma categorical_fit_order_irrelevant_witness :
  C.fit (C.mk [Fin 0; Fin 0; Fin 0]) [0; 2; 1]%Z
  = C.fit (C.mk [Fin 0; Fin 0; Fin 0]) [2; 1; 0]%Z.
Proof.
  apply categorical_fit_order_irrelevant.
  apply (perm_trans (l' := [2; 0; 1]%Z)).
  - apply perm_swap.
  - apply perm_skip. apply perm_swap.
Defined.

(** X9. Fitting the same data a second time changes nothing: the bins added
    by the first call for indices beyond [K-1] are already there, and a call
    that failed left the model alone. *)
Theorem categorical_fit_idempotent (c : C.t) (X : itensor) :
  C.fit (snd (C.fit c X)) X = C.fit c X.
Proof.
  destruct (fst (C.fit c X)) as [[]|e] eqn:E.
  - pose proof (fit_length c X E) as HL.
    unfold C.fit in *. unfold bincount in *.
    destruct (forallb (fun x => (0 <=? x)%Z) X) eqn:Eb;
      cbn [fst snd] in *; [|discriminate].
    cbn [C.logits] in *. rewrite HL.
    replace (Nat.max (Nat.max (length (C.logits c))
                              (Z.to_nat (largest X + 1)))
                     (Z.to_nat (largest X + 1)))
      with (Nat.max (length (C.logits c)) (Z.to_nat (largest X + 1)))
      by lia.
    reflexivity.
  - rewrite (categorical_fit_atomic c X e E). reflexivity.
Qed.

Lemma gather_single (t : tensor) (i : nat) :
  (i < length t)%nat -> gather t [Z.of_nat i] = Ok [nth i t NaN].
Proof.
  intros Hi.
  pose proof (gather_seq t 1 i ltac:(lia)) as G.
  cbn [seq map] in G. rewrite G, (skipn_nth_cons t i) by exact Hi.
  reflexivity.
Qed.

(** X10. After [fit] on a non-empty sequence of indices in [0 .. K-1], a
    category that was never observed has logit [-inf] and [log_prob] returns
    [-inf] for it, while a category that was observed has a finite logit. *)
Theorem categorical_fit_unseen_category
  (c : C.t) (X : itensor) (i : nat) :
  X <> [] -> Forall (in_range (length (C.logits c))) X ->
  (i < length (C.logits c))%nat ->
  let c' := snd (C.fit c X) in
  (occurrences X i = 0%nat ->
   nth i (C.logits c') NaN = NInf
   /\ C.log_prob c' [Z.of_nat i] = Ok [NInf])
  /\ ((0 < occurrences X i)%nat -> is_finite (nth i (C.logits c') NaN)).
Proof.
  intros Hne HX Hi. cbv zeta. rewrite fit_in_range by assumption.
  cbn [snd C.logits].
  pose proof (empirical_nonneg X (length (C.logits c)) Hne) as Hnn.
  pose proof (empirical_sum X (length (C.logits c)) Hne HX) as Hsum.
  assert (Hnth : nth i (tlog (map Fin (empirical X (length (C.logits c)))))
                     NaN
                 = flog (Fin (INR (occurrences X i) / INR (length X)))).
  { unfold tlog, empirical. rewrite !map_map.
    apply (nth_map_seq
             (fun j => flog (Fin (INR (occurrences X j) / INR (length X))))).
    exact Hi. }
  assert (HN : 0 < INR (length X)).
  { apply lt_0_INR. destruct X; [congruence|simpl; lia]. }
  split.
  - intros H0. rewrite Hnth, H0. change (INR 0) with 0.
    replace (0 / INR (length X)) with 0 by (field; lra).
    split; [apply flog_Fin_zero|].
    unfold C.log_prob, Categorical_log_prob. cbn [C.logits].
    rewrite Categorical_logits_normalised by assumption.
    rewrite gather_single.
    + rewrite Hnth, H0. change (INR 0) with 0.
      replace (0 / INR (length X)) with 0 by (field; lra).
      rewrite flog_Fin_zero. reflexivity.
    + unfold tlog, empirical. rewrite !length_map, length_seq. exact Hi.
  - intros Hpos. rewrite Hnth, flog_Fin_pos; [exact I|].
    apply Rdiv_lt_0_compat; [|exact HN]. apply lt_0_INR. exact Hpos.
Qed.

Lemma categorical_fit_unseen_category_witness :
  let c' := snd (C.fit (C.mk [Fin 0; Fin 0; Fin 0]) [0; 0; 2]%Z) in
  nth 1 (C.logits c') NaN = NInf
  /\ C.log_prob c' [1%Z] = Ok [NInf].
Proof.
  cbv zeta.
  refine (proj1 (categorical_fit_unseen_category
                   (C.mk [Fin 0; Fin 0; Fin 0]) [0; 0; 2]%Z 1 _ _ _)
                eq_refl).
  - discriminate.
  - repeat constructor; unfold in_range; simpl; lia.
  - simpl. lia.
Defined.

(** ** Reading back what [set_parameters] stored *)

(** X11. After a successful [set_parameters], [parameters] yields exactly
    the tensors that were stored, in the order [means], [covs] (a single
    tensor for the categorical model); elements of the sequence beyond
    those are ignored. *)
Theorem parameters_after_set_parameters
  (c : C.t) (d : D.t) (x y : tensor) (rest : list tensor) :
  fst (C.set_parameters c (PyList (x :: rest))) = Ok tt
  /\ C.parameters_list (snd (C.set_parameters c (PyList (x :: rest)))) = [x]
  /\ fst (fst (D.set_parameters d (PyList (x :: y :: rest)))) = Ok tt
  /\ D.parameters_list
       (snd (fst (D.set_parameters d (PyList (x :: y :: rest)))))
     = [x; y].
Proof. repeat split. Qed.

(** ** Edge cases of [DiagNormalModel.fit] *)

Lemma mean_single (x : R) : mean [Fin x] = Fin x.
Proof.
  unfold mean. cbn [tsum fold_right fadd length]. change (INR 1) with 1.
  rewrite fdiv_Fin by lra. f_equal. field.
Qed.

Lemma std_single (x : R) : std [Fin x] = NaN.
Proof.
  unfold std. rewrite mean_single.
  cbn [map sq_dev fsub fneg fadd fmul tsum fold_right length Nat.sub].
  change (INR 0) with 0.
  replace ((x + - x) * (x + - x) + 0) with 0 by ring.
  rewrite fdiv_zero_zero. reflexivity.
Qed.

Lemma map_nth_seq (r : list R) :
  map (fun j => nth j r 0) (seq 0 (length r)) = r.
Proof.
  apply (nth_ext _ _ 0 0).
  - rewrite length_map, length_seq. reflexivity.
  - intros i Hi. rewrite length_map, length_seq in Hi.
    apply (nth_map_seq (fun j => nth j r 0)). exact Hi.
Qed.

(** X12. [fit] on a single observation stores the observation as [means]
    and NaN in every entry of [covs]: with one sample the corrected
    variance is [0 / 0]. *)
Theorem diag_normal_fit_single_observation (d : D.t) (r : list R) :
  D.fit d (mkbatch (length r) [map Fin r])
  = (Ok tt, D.mk (map Fin r) (repeat NaN (length r))).
Proof.
  unfold D.fit. f_equal.
  assert (Hcol : forall j, (j < length r)%nat ->
                 column (mkbatch (length r) [map Fin r]) j
                 = [Fin (nth j r 0)]).
  { intros j Hj. unfold column. cbn [rows map]. f_equal.
    rewrite (nth_indep _ NaN (Fin 0)) by (rewrite length_map; exact Hj).
    apply (map_nth Fin). }
  f_equal.
  - unfold mean0. cbn [dim].
    transitivity (map Fin (map (fun j => nth j r 0) (seq 0 (length r))));
      [|rewrite map_nth_seq; reflexivity].
    rewrite map_map. apply map_ext_in. intros j Hj. apply in_seq in Hj.
    rewrite Hcol by lia. apply mean_single.
  - unfold tpow2, std0. cbn [dim]. rewrite map_map.
    transitivity (map (fun _ : nat => NaN) (seq 0 (length r)));
      [|rewrite map_const, length_seq; reflexivity].
    apply map_ext_in. intros j Hj. apply in_seq in Hj.
    rewrite Hcol by lia. rewrite std_single. reflexivity.
Qed.

(** X13. [fit] on an empty batch succeeds and stores NaN in every entry of
    [means] and of [covs]. *)
Theorem diag_normal_fit_empty_batch (d : D.t) (n_cols : nat) :
  D.fit d (mkbatch n_cols [])
  = (Ok tt, D.mk (repeat NaN n_cols) (repeat NaN n_cols)).
Proof.
  unfold D.fit, mean0, std0, tpow2, column. cbn [dim rows map].
  assert (Hm : mean [] = NaN).
  { unfold mean. cbn [tsum fold_right length]. change (INR 0) with 0.
    apply fdiv_zero_zero. }
  assert (Hs : std [] = NaN).
  { unfold std. cbn [map tsum fold_right length Nat.sub].
    change (INR 0) with 0. rewrite fdiv_zero_zero. reflexivity. }
  rewrite Hm, Hs, map_map. cbn [fmul].
  rewrite !map_const, length_seq. reflexivity.
Qed.

(** ** [fit] followed by [log_prob] and [sample] *)

Lemma tabs_nonneg (q : list R) :
  Forall (fun x => 0 <= x) q -> tabs (map Fin q) = map Fin q.
Proof.
  intros Hq. unfold tabs. rewrite map_map. apply map_ext_in.
  intros x Hx. rewrite Forall_forall in Hq. simpl.
  rewrite Rabs_right; [reflexivity|]. apply Rle_ge, Hq, Hx.
Qed.

(** X14. The variances stored by [fit] on at least two finite observations
    are never negative, so the absolute value taken by [log_prob] and
    [sample] leaves them as they are: the fitted model evaluates
    [MultivariateNormal(means, diag(covs))] with the fitted values. *)
Theorem diag_normal_fit_then_log_prob
  {T : Torch} (self : D.t) (n_cols : nat) (obs : list (list R))
  (value : tensor) (shape : option nat) (g : generator) :
  (2 <= length obs)%nat -> Forall (fun r => length r = n_cols) obs ->
  let self' := snd (D.fit self (mkbatch n_cols (map (map Fin) obs))) in
  tabs (D.covs self') = D.covs self'
  /\ D.log_prob self' value
     = mvn_log_prob (D.means self') (diag (D.covs self')) value
  /\ fst (D.sample self' shape g)
     = mvn_sample g (D.means self') (diag (D.covs self'))
                  (match shape with Some n => n | None => 1%nat end).
Proof.
  intros HN Hwf. cbv zeta. rewrite fit_finite_batch by assumption.
  cbn [snd D.covs D.means].
  assert (Habs : tabs (map (fun j => Fin (sample_variance (column_R obs j)))
                           (seq 0 n_cols))
                 = map (fun j => Fin (sample_variance (column_R obs j)))
                       (seq 0 n_cols)).
  { rewrite <- (map_map (fun j => sample_variance (column_R obs j)) Fin).
    apply tabs_nonneg. apply Forall_forall. intros v Hv.
    apply in_map_iff in Hv. destruct Hv as [j [<- _]].
    apply sample_variance_nonneg. unfold column_R. rewrite length_map.
    exact HN. }
  split; [exact Habs|].
  unfold D.log_prob, D.sample. cbn [fst D.means D.covs]. rewrite Habs.
  split; reflexivity.
Qed.

Lemma diag_normal_fit_then_log_prob_witness :
  let self' :=
    snd (D.fit (D.mk [Fin 0] [Fin (-1)])
               (mkbatch 1 (map (map Fin) [[1]; [2]; [3]]))) in
  tabs (D.covs self') = D.covs self'
  /\ @D.log_prob Reference.torch self' [Fin 2]
     = Reference.log_prob (D.means self') (diag (D.covs self')) [Fin 2].
Proof.
  cbv zeta.
  pose proof (@diag_normal_fit_then_log_prob Reference.torch
                (D.mk [Fin 0] [Fin (-1)]) 1 [[1]; [2]; [3]]
                [Fin 2] None 0%nat) as H.
  cbv zeta in H.
  assert (HN : (2 <= length [[1]; [2]; [3]])%nat) by (simpl; lia).
  assert (Hwf : Forall (fun r : list R => length r = 1%nat)
                       [[1]; [2]; [3]]) by (repeat constructor).
  destruct (H HN Hwf) as [Habs [Hlp _]].
  split; [exact Habs | exact Hlp].
Defined.

(** ** Random initialisation of the diagonal normal model *)

(** X15. [DiagNormalModel.init_params_random] leaves finite [means] and
    finite, strictly positive [covs], whatever the model held before (NaN
    included); for a model whose two fields have one length, [log_prob] on a
    value of that length and [sample] then succeed whenever the library
    accepts positive definite diagonal matrices. *)
Theorem diag_normal_init_params_random_valid
  {T : Torch} (d : D.t) (g g' : generator) (value : tensor)
  (shape : option nat) :
  let d' := snd (fst (D.init_params_random d g)) in
  Forall is_finite (D.means d')
  /\ Forall is_pos_finite (D.covs d')
  /\ tabs (D.covs d') = D.covs d'
  /\ (accepts_positive_definite T ->
      length (D.means d) = length (D.covs d) ->
      length value = length (D.covs d) ->
      is_ok (D.log_prob d' value) /\ is_ok (fst (D.sample d' shape g'))).
Proof.
  cbv zeta. unfold D.init_params_random. cbn [fst snd D.means D.covs].
  assert (Hpos : Forall is_pos_finite
                   (D.log_normal_ (advance g (length (D.means d)))
                                  (D.covs d))).
  { unfold D.log_normal_. apply Forall_forall. intros x Hx.
    apply in_map_iff in Hx. destruct Hx as [i [<- _]]. apply exp_pos. }
  assert (Habs : tabs (D.log_normal_ (advance g (length (D.means d)))
                                     (D.covs d))
                 = D.log_normal_ (advance g (length (D.means d)))
                                 (D.covs d)).
  { unfold D.log_normal_.
    rewrite <- (map_map (fun i => exp (1 + 2 * normal
                                         (advance g (length (D.means d))) i))
                        Fin).
    apply tabs_nonneg. apply Forall_forall. intros x Hx.
    apply in_map_iff in Hx. destruct Hx as [i [<- _]].
    apply Rlt_le, exp_pos. }
  split.
  { unfold D.normal_. apply Forall_forall. intros x Hx.
    apply in_map_iff in Hx. destruct Hx as [i [<- _]]. exact I. }
  split; [exact Hpos|]. split; [exact Habs|].
  intros Hlib Hm Hv.
  unfold D.log_prob, D.sample. cbn [fst D.means D.covs]. rewrite Habs.
  assert (Hlc : length (D.log_normal_ (advance g (length (D.means d)))
                                      (D.covs d)) = length (D.covs d)).
  { unfold D.log_normal_. rewrite length_map, length_seq. reflexivity. }
  assert (Hlm : length (D.normal_ g (D.means d)) = length (D.means d)).
  { unfold D.normal_. rewrite length_map, length_seq. reflexivity. }
  destruct (Hlib (D.normal_ g (D.means d))
                 (D.log_normal_ (advance g (length (D.means d))) (D.covs d))
                 value) as [Hlp Hs].
  - rewrite Hlm, Hlc. exact Hm.
  - rewrite Hlc. exact Hv.
  - exact Hpos.
  - split; [exact Hlp | apply Hs].
Qed.

(** ** Random initialisation followed by [log_prob] *)

(** X16. After [init_params_random] on a model with at least one category
    the stored logits are already normalised: [log_prob] over the whole
    support returns the stored logits themselves. *)
Theorem categorical_init_params_random_then_log_prob
  {T : Torch} (c : C.t) (g : generator) :
  C.logits c <> [] ->
  let c' := snd (fst (C.init_params_random c g)) in
  Categorical_logits (C.logits c') = C.logits c'
  /\ C.log_prob c' (support (length (C.logits c))) = Ok (C.logits c').
Proof.
  intros Hne. cbv zeta.
  pose proof (init_params_random_length c g) as Hlen.
  unfold C.log_prob, Categorical_log_prob.
  assert (Hnorm : Categorical_logits
                    (C.logits (snd (fst (C.init_params_random c g))))
                  = C.logits (snd (fst (C.init_params_random c g)))).
  { unfold C.init_params_random. cbn [fst snd C.logits].
    rewrite rand_like_Fin.
    assert (Hu : map (uniform g) (seq 0 (length (C.logits c))) <> []).
    { destruct (C.logits c); [congruence|discriminate]. }
    rewrite softmax_Fin by exact Hu.
    apply Categorical_logits_normalised.
    - apply Forall_pos_nonneg, softmax_R_pos. exact Hu.
    - apply softmax_R_sum. exact Hu. }
  split; [exact Hnorm|]. rewrite Hnorm, <- Hlen. apply gather_support.
Qed.

Lemma categorical_init_params_random_then_log_prob_witness :
  let c' :=
    snd (fst (@C.init_params_random Reference.torch (C.mk [NaN; PInf])
                                    0%nat)) in
  C.log_prob c' (support 2) = Ok (C.logits c').
Proof.
  cbv zeta.
  refine (proj2 (@categorical_init_params_random_then_log_prob
                   Reference.torch (C.mk [NaN; PInf]) 0%nat _)).
  discriminate.
Defined.
